(** * Verification of [train_classification.py]

    Shallow embedding of the batch collator [ClassificationBatchFunction]
    and of the control logic of [train] (gradient accumulation, periodic
    logging, best-checkpoint selection, final result record).

    Conventions of the embedding.
    - Python integers are [Z]; token ids, labels and lengths are not
      truncated.  [torch.tensor] stores 64-bit integers and raises on a
      value outside that range, which [Torch.tensor1] / [Torch.tensor2]
      reproduce together with the rectangular-shape check.
    - A Python exception is a constructor of [exn]; code that can raise
      returns a [res].
    - Losses and metrics of the training loop are rationals ([Q]): the
      arithmetic of the loop is modelled exactly, without rounding.  The
      validation loss that drives checkpointing is an [fl], which adds
      NaN and the two infinities with the IEEE comparison.
    - The model, the optimizer, the scheduler, the data loaders and the
      file system are collaborators: their calls are recorded as [event]s
      of a trace, and the numbers they return are inputs of the model. *)

From Stdlib Require Import ZArith QArith Qfield List Bool String Lia.
From stdpp Require Import base list.
Import ListNotations.

Local Open Scope Z_scope.

(** ** Python exceptions and results

    [UnboundLocalError] is the [NameError] raised by a read of a local
    variable that no executed statement has assigned; it carries the
    name of the variable. *)

Inductive exn : Type :=
| ValueError
| RuntimeError
| ZeroDivisionError
| UnboundLocalError (var : string).

Inductive res (A : Type) : Type :=
| Ok (a : A)
| Raise (e : exn).
Arguments Ok {A} a.
Arguments Raise {A} e.

Definition res_bind {A B} (r : res A) (k : A -> res B) : res B :=
  match r with
  | Ok a => k a
  | Raise e => Raise e
  end.

(** ** Python list primitives *)

Module Py.

(** [l[a:]]: a negative start counts from the end, and the start is
    clamped to [0 .. len l]. *)
Definition slice_from {A} (a : Z) (l : list A) : list A :=
  let n := Z.of_nat (length l) in
  let start := if a <? 0 then Z.max 0 (a + n) else Z.min a n in
  drop (Z.to_nat start) l.

(** [[x] * n]: empty when [n <= 0]. *)
Definition repeat_list {A} (x : A) (n : Z) : list A :=
  replicate (Z.to_nat n) x.

(** [max(l)] for a list of integers; [ValueError] on the empty list. *)
Definition max_of (l : list Z) : res Z :=
  match l with
  | [] => Raise ValueError
  | x :: xs => Ok (fold_left Z.max xs x)
  end.

(** [len(l)] *)
Definition len {A} (l : list A) : Z := Z.of_nat (length l).

End Py.

(** ** The part of torch the collator uses *)

Module Torch.

Definition in_int64 (z : Z) : bool :=
  (- 2 ^ 63 <=? z) && (z <? 2 ^ 63).

(** [torch.tensor(l)] on a flat list of integers. *)
Definition tensor1 (l : list Z) : res (list Z) :=
  if forallb in_int64 l then Ok l else Raise RuntimeError.

(** [torch.tensor(rows)] on a list of lists: rows of different lengths
    raise [ValueError], an element outside int64 raises [RuntimeError]. *)
Definition tensor2 (rows : list (list Z)) : res (list (list Z)) :=
  match rows with
  | [] => Ok []
  | r :: rs =>
      if negb (forallb (fun r' => Nat.eqb (length r') (length r)) rs)
      then Raise ValueError
      else if forallb (forallb in_int64) rows then Ok rows
      else Raise RuntimeError
  end.

Definition ones_like (t : list (list Z)) : list (list Z) :=
  map (map (fun _ => 1)) t.

(** [t == v], elementwise *)
Definition eq_scalar (t : list (list Z)) (v : Z) : list (list bool) :=
  map (map (fun x => x =? v)) t.

(** [t.masked_fill(m, v)]: [v] where the mask is true, [t] elsewhere. *)
Definition masked_fill (t : list (list Z)) (m : list (list bool)) (v : Z)
  : list (list Z) :=
  zip_with (zip_with (fun x (b : bool) => if b then v else x)) t m.

End Torch.

(** ** The batch collator *)

Record ClassificationBatchFunction : Type := {
  max_len : Z;
  pad_idx : Z;
  cls_idx : Z;
  sep_idx : Z
}.

(** [__init__]: a missing boundary id defaults to the pad id. *)
Definition init (max_len pad_idx : Z) (cls_idx sep_idx : option Z)
  : ClassificationBatchFunction :=
  {| max_len := max_len;
     pad_idx := pad_idx;
     cls_idx := match cls_idx with Some c => c | None => pad_idx end;
     sep_idx := match sep_idx with Some s => s | None => pad_idx end |}.

(** [pad], as a function of the list's contents. *)
Definition pad (self : ClassificationBatchFunction) (sample : list Z) : list Z :=
  let diff := max_len self - Py.len sample in
  if 0 <? diff then sample ++ Py.repeat_list (pad_idx self) diff
  else Py.slice_from (- max_len self) sample.

(** The local [max_len] of [__call__] (line 42): the batch-relative
    length.  [__call__] computes it and does not read it again. *)
Definition batch_max_len (self : ClassificationBatchFunction)
  (tokens : list (list Z)) : res Z :=
  res_bind (Py.max_of (map Py.len tokens))
           (fun m => Ok (Z.min (max_len self) m)).

Definition masks_of (self : ClassificationBatchFunction)
  (tokens : list (list Z)) : list (list Z) :=
  Torch.masked_fill (Torch.ones_like tokens)
                    (Torch.eq_scalar tokens (pad_idx self)) (pad_idx self).

(** [__call__] on a batch given by value. *)
Definition call (self : ClassificationBatchFunction)
  (batch : list (list Z * Z))
  : res (list (list Z) * list (list Z) * list Z) :=
  match batch with
  | [] => Raise ValueError      (* unpacking [list(zip( *[]))] into two names *)
  | _ =>
      let tokens := map fst batch in
      let label := map snd batch in
      res_bind (batch_max_len self tokens) (fun _max_len =>
      res_bind (Torch.tensor2
                  (map (fun t => pad self ([cls_idx self] ++ t ++ [sep_idx self]))
                       tokens)) (fun tokens =>
      let masks := masks_of self tokens in
      res_bind (Torch.tensor1 label) (fun label =>
      Ok (tokens, masks, label))))
  end.

(** the rows [__call__] hands to [torch.tensor] *)
Definition rows_of (self : ClassificationBatchFunction)
  (batch : list (list Z * Z)) : list (list Z) :=
  map (fun t => pad self ([cls_idx self] ++ t ++ [sep_idx self])) (map fst batch).

(** one entry of the mask: ones, filled with the pad id where the token
    is the pad id *)
Definition mask_entry (self : ClassificationBatchFunction) (x : Z) : Z :=
  if x =? pad_idx self then pad_idx self else 1.

(** every id of the configuration and of the batch fits a tensor *)
Definition ids_ok (self : ClassificationBatchFunction)
  (batch : list (list Z * Z)) : bool :=
  Torch.in_int64 (pad_idx self) && Torch.in_int64 (cls_idx self)
  && Torch.in_int64 (sep_idx self)
  && forallb (fun b => forallb Torch.in_int64 (fst b) && Torch.in_int64 (snd b))
             batch.

(** ** The collator on list objects

    [pad] extends its argument in place ([sample += ...]); whether that
    reaches the caller's token lists depends on which object [sample] is.
    Here lists live in a store, a batch holds references, and every list
    operation says whether it allocates or mutates. *)

Module Store.

Abbreviation loc := nat (only parsing).
Abbreviation heap := (list (list Z)) (only parsing).

Definition HM (A : Type) : Type := heap -> res A * heap.

Definition ret {A} (a : A) : HM A := fun h => (Ok a, h).

Definition bind {A B} (m : HM A) (k : A -> HM B) : HM B :=
  fun h => match m h with
           | (Ok a, h') => k a h'
           | (Raise e, h') => (Raise e, h')
           end.

Definition lift {A} (r : res A) : HM A := fun h => (r, h).

(** a new list object *)
Definition alloc (l : list Z) : HM loc :=
  fun h => (Ok (length h), h ++ [l]).

(** the contents of a list object; a reference held by a running
    program always points to an object, the default is never used *)
Definition read (p : loc) : HM (list Z) :=
  fun h => (Ok (default [] (h !! p)), h).

(** [p += ext]: the object itself grows *)
Definition extend (p : loc) (ext : list Z) : HM unit :=
  fun h => (Ok tt, <[p := default [] (h !! p) ++ ext]> h).

Fixpoint mapM {A B} (f : A -> HM B) (l : list A) : HM (list B) :=
  match l with
  | [] => ret []
  | x :: xs =>
      bind (f x) (fun y => bind (mapM f xs) (fun ys => ret (y :: ys)))
  end.

End Store.

Declare Scope heap_scope.
Delimit Scope heap_scope with heap.
Notation "x <- m ;; k" := (Store.bind m (fun x => k))
  (at level 100, m at next level, right associativity) : heap_scope.
Notation "m ;; k" := (Store.bind m (fun _ => k))
  (at level 100, right associativity) : heap_scope.

Section CollatorOnObjects.

Variable self : ClassificationBatchFunction.
Local Open Scope heap_scope.

(** [pad]: returns the reference it was given after growing the object,
    or a reference to a new slice. *)
Definition pad_obj (sample : Store.loc) : Store.HM Store.loc :=
  l <- Store.read sample ;;
  let diff := max_len self - Py.len l in
  if 0 <? diff
  then (Store.extend sample (Py.repeat_list (pad_idx self) diff) ;;
        Store.ret sample)
  else Store.alloc (Py.slice_from (- max_len self) l).

(** one element of the comprehension of line 44:
    [self.pad([self.cls_idx] + t + [self.sep_idx])] *)
Definition padded_row (t : Store.loc) : Store.HM Store.loc :=
  l <- Store.read t ;;
  sample <- Store.alloc ([cls_idx self] ++ l ++ [sep_idx self]) ;;
  pad_obj sample.

Definition call_obj (batch : list (Store.loc * Z))
  : Store.HM (list (list Z) * list (list Z) * list Z) :=
  match batch with
  | [] => Store.lift (Raise ValueError)
  | _ =>
      let tokens := map fst batch in
      let label := map snd batch in
      lens <- Store.mapM (fun i => l <- Store.read i ;; Store.ret (Py.len l))
                         tokens ;;
      _max_len <- Store.lift
                    (res_bind (Py.max_of lens)
                              (fun m => Ok (Z.min (max_len self) m))) ;;
      rows <- Store.mapM padded_row tokens ;;
      rows <- Store.mapM Store.read rows ;;
      tokens <- Store.lift (Torch.tensor2 rows) ;;
      let masks := masks_of self tokens in
      label <- Store.lift (Torch.tensor1 label) ;;
      Store.ret (tokens, masks, label)
  end.

End CollatorOnObjects.

(** the batch a list of references denotes in a store *)
Definition deref (h : Store.heap) (batch : list (Store.loc * Z))
  : list (list Z * Z) :=
  map (fun b => (default [] (h !! fst b), snd b)) batch.

Definition valid_batch (h : Store.heap) (batch : list (Store.loc * Z)) : Prop :=
  Forall (fun b => (fst b < length h)%nat) batch.

(** ** Numbers of the training loop *)

Definition Qlt_bool (x y : Q) : bool := negb (Qle_bool y x).

(** a Python float as far as comparisons go *)
Inductive fl : Type :=
| NaN
| NegInf
| Fin (q : Q)
| PosInf.

(** [a < b] on floats: false whenever a NaN is involved *)
Definition flt (a b : fl) : bool :=
  match a, b with
  | NaN, _ => false
  | _, NaN => false
  | NegInf, NegInf => false
  | NegInf, _ => true
  | Fin _, NegInf => false
  | Fin x, Fin y => Qlt_bool x y
  | Fin _, PosInf => true
  | PosInf, _ => false
  end.

(** [a <= b] on floats *)
Definition fle (a b : fl) : bool :=
  match a, b with
  | NaN, _ => false
  | _, NaN => false
  | NegInf, _ => true
  | Fin _, NegInf => false
  | Fin x, Fin y => Qle_bool x y
  | Fin _, PosInf => true
  | PosInf, PosInf => true
  | PosInf, _ => false
  end.

(** [a % b] and [a // b] on integers: the sign of the result follows the
    divisor, as with [Z.modulo] and [Z.div]; a zero divisor raises. *)
Definition py_mod (a b : Z) : res Z :=
  if b =? 0 then Raise ZeroDivisionError else Ok (a mod b).

Definition py_floordiv (a b : Z) : res Z :=
  if b =? 0 then Raise ZeroDivisionError else Ok (a / b).

(** ** Configuration and collaborators of [train] *)

Record Args : Type := {
  num_label : string;
  epochs : Z;
  gradient_accumulation_steps : Z;
  logging_step : Z;
  fp16 : bool
}.

(** what the model and [classification_report] give for one micro-batch:
    the loss, the batch accuracy and the batch macro-F1 *)
Record Micro : Type := {
  m_loss : Q;
  m_acc : Q;
  m_f1 : Q
}.

(** what the validation pass gives at the end of an epoch *)
Record Val : Type := {
  v_loss : fl;
  v_acc : Q;
  v_f1 : Q
}.

(** [tr_len] is [len(tr_loader)], the same in every epoch; the outputs
    depend on the epoch and on the position in the epoch. *)
Record Env : Type := {
  tr_len : nat;
  model_out : nat -> nat -> Micro;
  dev_out : nat -> Val
}.

(** the two files of a checkpoint: [best_model.bin] (the weights) and
    [training_args.bin] (the hyperparameter configuration) *)
Inductive artifact : Type :=
| BestModel
| TrainingArgs.

(** The calls to the collaborators that the claims speak of:
    - [Forward]: [model( **inputs)] on micro-batch [step] of [epoch];
    - [Backward]: [loss.backward()] (through [amp.scale_loss] when
      [scaled]) with the loss it is called on;
    - [LogStep]: the periodic log of line 211, with the step number and
      the three values it prints;
    - [OptimizerStep]: gradient clipping, [scheduler.step()],
      [optimizer.step()] and [model.zero_grad()] of lines 223-232;
    - [Evaluate]: the validation pass of line 240;
    - [LogEpoch]: the log and the scalars of lines 242-254;
    - [Save]: one [torch.save] of lines 258-260;
    - [ResultRow]: [result_writer.update] of line 272. *)
Inductive event : Type :=
| Forward (epoch step : nat)
| Backward (scaled : bool) (loss : Q)
| LogStep (gstep : Z) (loss acc f1 : Q)
| OptimizerStep (scaled : bool)
| Evaluate (epoch : nat)
| LogEpoch (gstep : Z) (loss acc f1 : Q) (val : Val)
| Save (epoch : nat) (what : artifact)
| ResultRow (val_loss : fl) (val_acc : Q).

(** The local variables of [train] that the loops update, and the trace
    of calls to the collaborators, oldest first.  [step] and
    [best_val_acc] are unbound until their first assignment.  The running
    sums are unbound before the first epoch too; they are read only after
    [best_val_acc], which is bound later than they are. *)
Record St : Type := {
  global_step : Z;
  step : option Z;
  train_loss : Q;
  train_acc : Q;
  train_f1 : Q;
  logging_loss : Q;
  logging_acc : Q;
  logging_f1 : Q;
  best_val_loss : fl;
  best_val_acc : option Q;
  trace : list event
}.

(** the sentinel of line 158 *)
Definition sentinel : fl := Fin (1000000000 # 1).

Definition init_st : St :=
  {| global_step := 0; step := None;
     train_loss := 0; train_acc := 0; train_f1 := 0;
     logging_loss := 0; logging_acc := 0; logging_f1 := 0;
     best_val_loss := sentinel; best_val_acc := None;
     trace := [] |}.

Definition set_step (i : Z) (s : St) : St :=
  {| global_step := global_step s; step := Some i;
     train_loss := train_loss s; train_acc := train_acc s;
     train_f1 := train_f1 s;
     logging_loss := logging_loss s; logging_acc := logging_acc s;
     logging_f1 := logging_f1 s;
     best_val_loss := best_val_loss s; best_val_acc := best_val_acc s;
     trace := trace s |}.

Definition set_global_step (g : Z) (s : St) : St :=
  {| global_step := g; step := step s;
     train_loss := train_loss s; train_acc := train_acc s;
     train_f1 := train_f1 s;
     logging_loss := logging_loss s; logging_acc := logging_acc s;
     logging_f1 := logging_f1 s;
     best_val_loss := best_val_loss s; best_val_acc := best_val_acc s;
     trace := trace s |}.

Definition set_train (l a f : Q) (s : St) : St :=
  {| global_step := global_step s; step := step s;
     train_loss := l; train_acc := a; train_f1 := f;
     logging_loss := logging_loss s; logging_acc := logging_acc s;
     logging_f1 := logging_f1 s;
     best_val_loss := best_val_loss s; best_val_acc := best_val_acc s;
     trace := trace s |}.

Definition set_logging (l a f : Q) (s : St) : St :=
  {| global_step := global_step s; step := step s;
     train_loss := train_loss s; train_acc := train_acc s;
     train_f1 := train_f1 s;
     logging_loss := l; logging_acc := a; logging_f1 := f;
     best_val_loss := best_val_loss s; best_val_acc := best_val_acc s;
     trace := trace s |}.

Definition set_best (l : fl) (a : Q) (s : St) : St :=
  {| global_step := global_step s; step := step s;
     train_loss := train_loss s; train_acc := train_acc s;
     train_f1 := train_f1 s;
     logging_loss := logging_loss s; logging_acc := logging_acc s;
     logging_f1 := logging_f1 s;
     best_val_loss := l; best_val_acc := Some a;
     trace := trace s |}.

Definition add_event (e : event) (s : St) : St :=
  {| global_step := global_step s; step := step s;
     train_loss := train_loss s; train_acc := train_acc s;
     train_f1 := train_f1 s;
     logging_loss := logging_loss s; logging_acc := logging_acc s;
     logging_f1 := logging_f1 s;
     best_val_loss := best_val_loss s; best_val_acc := best_val_acc s;
     trace := trace s ++ [e] |}.

(** ** The monad of [train]: state that survives an exception *)

Definition M (A : Type) : Type := St -> res A * St.

Definition ret {A} (a : A) : M A := fun s => (Ok a, s).

Definition bind {A B} (m : M A) (k : A -> M B) : M B :=
  fun s => match m s with
           | (Ok a, s') => k a s'
           | (Raise e, s') => (Raise e, s')
           end.

Definition lift {A} (r : res A) : M A := fun s => (r, s).
Definition raise {A} (e : exn) : M A := lift (Raise e).
Definition get : M St := fun s => (Ok s, s).
Definition modify (f : St -> St) : M unit := fun s => (Ok tt, f s).
Definition emit (e : event) : M unit := modify (add_event e).

(** reading a local that may not have been assigned *)
Definition local {A} (name : string) (v : option A) : M A :=
  match v with
  | Some a => ret a
  | None => raise (UnboundLocalError name)
  end.

Definition when (b : bool) (m : M unit) : M unit :=
  if b then m else ret tt.

Fixpoint for_each {A} (l : list A) (body : A -> M unit) : M unit :=
  match l with
  | [] => ret tt
  | x :: xs => bind (body x) (fun _ => for_each xs body)
  end.

Declare Scope train_scope.
Delimit Scope train_scope with train.
Notation "x <- m ;; k" := (bind m (fun x => k))
  (at level 100, m at next level, right associativity) : train_scope.
Notation "m ;; k" := (bind m (fun _ => k))
  (at level 100, right associativity) : train_scope.

(** ** [train] and [evaluate] *)

(** lines 70-73 and 277-280: the label list, when a branch assigns it *)
Definition label_list_of (num_label : string) : option (list string) :=
  if String.eqb num_label "multi"
  then Some ["공포"; "놀람"; "분노"; "슬픔"; "중립"; "행복"; "혐오"]%string
  else if String.eqb num_label "binary"
  then Some ["긍정"; "부정"]%string
  else None.

Section Train.

Variable args : Args.
Variable env : Env.
Local Open Scope train_scope.

Definition grad_accu : Z := gradient_accumulation_steps args.

(** [evaluate]: the validation pass runs first, the label list is read
    when the report is built. *)
Definition evaluate (epoch : nat) : M Val :=
  emit (Evaluate epoch) ;;
  _ <- local "label_list" (label_list_of (num_label args)) ;;
  ret (dev_out env epoch).

(** one iteration of the loop of line 167 *)
Definition micro_step (epoch i : nat) : M unit :=
  modify (set_step (Z.of_nat i)) ;;
  emit (Forward epoch i) ;;
  let out := model_out env epoch i in
  let scale (x : Q) : Q :=
    if 1 <? grad_accu then (x / inject_Z grad_accu)%Q else x in
  let loss := scale (m_loss out) in
  let batch_acc := scale (m_acc out) in
  let batch_macro_f1 := scale (m_f1 out) in
  emit (Backward (fp16 args) loss) ;;
  modify (fun s => set_train (train_loss s + loss)%Q
                             (train_acc s + batch_acc)%Q
                             (train_f1 s + batch_macro_f1)%Q s) ;;
  s <- get ;;
  r <- lift (py_mod (global_step s + 1) (logging_step args)) ;;
  when (r =? 0)
    (let d := inject_Z (logging_step args) in
     let l_acc := ((train_acc s - logging_acc s) / d)%Q in
     let l_f1 := ((train_f1 s - logging_f1 s) / d)%Q in
     let l_loss := ((train_loss s - logging_loss s) / d)%Q in
     emit (LogStep (global_step s + 1) l_loss l_acc l_f1) ;;
     modify (set_logging (train_loss s) (train_acc s) (train_f1 s))) ;;
  r <- lift (py_mod (Z.of_nat i + 1) grad_accu) ;;
  when (r =? 0)
    (emit (OptimizerStep (fp16 args)) ;;
     modify (fun s => set_global_step (global_step s + 1) s)).

(** the body of the loop of line 162 *)
Definition epoch_body (epoch : nat) : M unit :=
  modify (set_train 0 0 0) ;;
  modify (set_logging 0 0 0) ;;
  for_each (seq 0 (tr_len env)) (micro_step epoch) ;;
  s <- get ;;
  i <- local "step" (step s) ;;
  let n := inject_Z (i + 1) in
  modify (set_train (train_loss s / n)%Q (train_acc s / n)%Q
                    (train_f1 s / n)%Q) ;;
  v <- evaluate epoch ;;
  s <- get ;;
  emit (LogEpoch (global_step s + 1)
                 (train_loss s) (train_acc s) (train_f1 s) v) ;;
  when (flt (v_loss v) (best_val_loss s))
    (emit (Save epoch BestModel) ;;
     emit (Save epoch TrainingArgs) ;;
     modify (set_best (v_loss v) (v_acc v))) ;;
  modify (fun s => set_train 0 0 (train_f1 s) s).

(** the first [k] iterations of the loop over epochs *)
Definition epochs_loop (k : nat) : M unit :=
  for_each (seq 0 k) epoch_body.

Definition train : M (Z * Q * Q * fl * Q) :=
  _ <- local "label_list" (label_list_of (num_label args)) ;;
  _ <- lift (res_bind (py_floordiv (Z.of_nat (tr_len env)) grad_accu)
                      (fun q => Ok (q * epochs args))) ;;
  epochs_loop (Z.to_nat (epochs args)) ;;
  s <- get ;;
  acc <- local "best_val_acc" (best_val_acc s) ;;
  emit (ResultRow (best_val_loss s) acc) ;;
  ret (global_step s, train_loss s, train_acc s, best_val_loss s, acc).

End Train.

(** ** Readings of a trace *)

Definition is_optimizer_step (e : event) : bool :=
  match e with OptimizerStep _ => true | _ => false end.

(** the losses handed to [backward], in order *)
Definition backward_losses (tr : list event) : list Q :=
  omap (fun e => match e with Backward _ l => Some l | _ => None end) tr.

(** the (global step, loss) pairs of the periodic log, in order *)
Definition logged (tr : list event) : list (Z * Q) :=
  omap (fun e => match e with LogStep g l _ _ => Some (g, l) | _ => None end) tr.

(** for every optimizer update, the number of [backward] calls since the
    previous update (or since the start) *)
Fixpoint accumulations_from (n : nat) (tr : list event) : list nat :=
  match tr with
  | [] => []
  | Backward _ _ :: tr' => accumulations_from (S n) tr'
  | OptimizerStep _ :: tr' => n :: accumulations_from 0 tr'
  | _ :: tr' => accumulations_from n tr'
  end.

Definition accumulations (tr : list event) : list nat :=
  accumulations_from 0 tr.

(** the checkpoint writes of a trace, in order: the epoch and the file *)
Definition saves (tr : list event) : list (nat * artifact) :=
  omap (fun e => match e with
                 | Save k what => Some (k, what)
                 | _ => None
                 end) tr.

(** the rows appended to the results table *)
Definition result_rows (tr : list event) : list (fl * Q) :=
  omap (fun e => match e with ResultRow l a => Some (l, a) | _ => None end) tr.

Definition optimizer_steps (tr : list event) : nat :=
  length (List.filter is_optimizer_step tr).

(** the events the loop over micro-batches can record *)
Definition inner_event (e : event) : bool :=
  match e with
  | Forward _ _ | Backward _ _ | LogStep _ _ _ _ | OptimizerStep _ => true
  | _ => false
  end.

(** what a stretch of the loop over micro-batches leaves alone *)
Definition inner_frame (s s' : St) : Prop :=
  best_val_loss s' = best_val_loss s /\
  best_val_acc s' = best_val_acc s /\
  exists evs, trace s' = trace s ++ evs /\ forallb inner_event evs = true.

(** The best validation loss seen before epoch [k], in the words of the
    specification: the least of the sentinel and the losses of epochs
    [0 .. k-1], where a loss counts when it is strictly below the least
    so far (so a NaN never counts). *)
Definition best_so_far (env : Env) (k : nat) : fl :=
  fold_left (fun b e => let l := v_loss (dev_out env e) in
                        if flt l b then l else b)
            (seq 0 k) sentinel.

(** the global steps [g+1 .. g+n] *)
Definition steps_after (g : Z) (n : nat) : list Z :=
  map (fun j => g + 1 + Z.of_nat j) (seq 0 n).

(** two log entries agree: same global step, equal loss *)
Definition same_log (x y : Z * Q) : Prop :=
  fst x = fst y /\ (snd x == snd y)%Q.

(** ** Concrete configurations and batches *)

(** pad 0, boundary-start 1, boundary-end 2, at most 6 tokens *)
Definition bert_collator : ClassificationBatchFunction :=
  init 6 0 (Some 1) (Some 2).

(** a vocabulary whose pad id is 1 *)
Definition pad1_collator : ClassificationBatchFunction :=
  init 6 1 (Some 2) (Some 3).

Definition scenario_batch : list (list Z * Z) :=
  [([5; 6; 7], 0); ([8; 9], 1)].

Definition scenario_heap : list (list Z) := [[5; 6; 7]; [8; 9]].

Definition scenario_refs : list (nat * Z) := [(0%nat, 0); (1%nat, 1)].

(** [--gradient_accumulation_steps 2 --logging_step 1 --epochs 1] *)
Definition args_g2 : Args :=
  {| num_label := "binary"; epochs := 1; gradient_accumulation_steps := 2;
     logging_step := 1; fp16 := false |}.

(** a loader of [n] micro-batches on which the model always gives the
    same loss, accuracy and macro-F1 *)
Definition env_const (n : nat) (L a f : Q) (v : Val) : Env :=
  {| tr_len := n;
     model_out := fun _ _ => {| m_loss := L; m_acc := a; m_f1 := f |};
     dev_out := fun _ => v |}.

Definition args_plain (selector : string) (n : Z) : Args :=
  {| num_label := selector; epochs := n; gradient_accumulation_steps := 1;
     logging_step := 100; fp16 := false |}.

(** validation losses 2, 1, NaN, then 1 again *)
Definition env_improving : Env :=
  {| tr_len := 1;
     model_out := fun _ _ => {| m_loss := 1; m_acc := 1; m_f1 := 1 |};
     dev_out := fun e =>
       {| v_loss := match e with
                    | O => Fin 2
                    | S O => Fin 1
                    | S (S O) => NaN
                    | _ => Fin 1
                    end;
          v_acc := 1 # 2; v_f1 := 1 # 2 |} |}.

(** validation losses NaN, then twice the sentinel *)
Definition env_stuck : Env :=
  {| tr_len := 1;
     model_out := fun _ _ => {| m_loss := 1; m_acc := 1; m_f1 := 1 |};
     dev_out := fun e =>
       {| v_loss := match e with
                    | O => NaN
                    | _ => Fin (2000000000 # 1)
                    end;
          v_acc := 1 # 2; v_f1 := 1 # 2 |} |}.

(** ** More of [train] and [evaluate]

    The definitions below serve the properties proved after the claims:
    readings of the run, the renaming of the parameters of an 'skt'
    checkpoint, and the validation pass batch by batch. *)

(** the loss of micro-batch [i] of [epoch] as [backward] and the running
    total get it: divided by the accumulation factor when that is above 1
    (lines 190-192) *)
Definition scaled_loss (args : Args) (env : Env) (epoch i : nat) : Q :=
  if 1 <? grad_accu args
  then (m_loss (model_out env epoch i) / inject_Z (grad_accu args))%Q
  else m_loss (model_out env epoch i).


Definition Qsum (l : list Q) : Q := fold_right Qplus 0%Q l.

(** the (step label, training loss) pairs of the end-of-epoch log *)
Definition epoch_logs (tr : list event) : list (Z * Q) :=
  omap (fun e => match e with LogEpoch g l _ _ _ => Some (g, l) | _ => None end) tr.

(** 1 when micro-batch [i] passes the test of line 222, else 0 *)
Definition closes_window (args : Args) (i : nat) : Z :=
  if (Z.of_nat i + 1) mod grad_accu args =? 0 then 1 else 0.

(** how many of the micro-batches [l] pass the test of line 222 *)
Definition windows_closed (args : Args) (l : list nat) : Z :=
  fold_right Z.add 0 (map (closes_window args) l).

(** some epoch among the first [k] has a validation loss below the
    sentinel *)
Definition improves (env : Env) (k : nat) : bool :=
  existsb (fun e => flt (v_loss (dev_out env e)) sentinel) (seq 0 k).

(** *** Python dictionaries in insertion order *)

Module Dict.

(** [d[k]], [None] standing for [KeyError] *)
Fixpoint get {V} (d : list (string * V)) (k : string) : option V :=
  match d with
  | [] => None
  | (k', v) :: d' => if String.eqb k' k then Some v else get d' k
  end.

(** [d[k] = v]: an existing key keeps its place, a new key goes last *)
Fixpoint set {V} (d : list (string * V)) (k : string) (v : V)
  : list (string * V) :=
  match d with
  | [] => [(k, v)]
  | (k', v') :: d' =>
      if String.eqb k' k then (k', v) :: d' else (k', v') :: set d' k v
  end.

(** [{k: v for k, v in pairs}] *)
Definition of_pairs {V} (pairs : list (string * V)) : list (string * V) :=
  fold_left (fun d kv => set d (fst kv) (snd kv)) pairs [].

Definition keys {V} (d : list (string * V)) : list string := map fst d.

Definition values {V} (d : list (string * V)) : list V := map snd d.

End Dict.

(** lines 81-85: the parameter names of an 'skt' checkpoint get the
    prefix 'bert.'; other checkpoints are left as loaded *)
Definition rename_pretrained {V} (pretrained_type : string)
  (pretrained : list (string * V)) : list (string * V) :=
  if String.eqb pretrained_type "skt"
  then
    let new_keys_ :=
      map (fun k => ("bert." ++ k)%string) (Dict.keys pretrained) in
    let old_values_ := Dict.values pretrained in
    Dict.of_pairs (zip new_keys_ old_values_)
  else pretrained.

(** *** The validation pass, batch by batch *)

(** a value of the dictionary that
    [classification_report(..., output_dict=True)] returns: a float
    (under 'accuracy') or a row of four metrics *)
Inductive report_entry : Type :=
| Scalar (q : Q)
| Row (precision recall f1_score support : Q).

(** the exceptions of [evaluate]: those of [exn] and the three that
    reading the report can raise *)
Inductive eval_exn : Type :=
| Py (e : exn)
| IndexError
| KeyError (key : string)
| TypeError.

Inductive eres (A : Type) : Type :=
| EOk (a : A)
| ERaise (e : eval_exn).
Arguments EOk {A} a.
Arguments ERaise {A} e.

Definition ebind {A B} (r : eres A) (k : A -> eres B) : eres B :=
  match r with
  | EOk a => k a
  | ERaise e => ERaise e
  end.

(** what one batch of the validation loader contributes: its labels,
    the model's predictions and the model's loss *)
Record DevBatch : Type := {
  y_dev : list Z;
  y_max : list Z;
  loss_item : Q
}.

(** the locals the loop of line 286 updates; [val_step] is unbound until
    the first iteration *)
Record EvalSt : Type := {
  val_loss : Q;
  total_y : list Z;
  total_y_hat : list Z;
  val_step : option Z
}.

Definition eval_init : EvalSt :=
  {| val_loss := 0; total_y := []; total_y_hat := []; val_step := None |}.

Definition eval_batch (st : EvalSt) (i : nat) (b : DevBatch) : EvalSt :=
  {| val_loss := (val_loss st + loss_item b)%Q;
     total_y := total_y st ++ y_dev b;
     total_y_hat := total_y_hat st ++ y_max b;
     val_step := Some (Z.of_nat i) |}.

(** [for val_step, batch in enumerate(dataloader)], from index [i] on *)
Fixpoint eval_loop (i : nat) (batches : list DevBatch) (st : EvalSt) : EvalSt :=
  match batches with
  | [] => st
  | b :: bs => eval_loop (S i) bs (eval_batch st i b)
  end.

(** [list(cr.items())[i]] *)
Definition item_at (cr : list (string * report_entry)) (i : nat)
  : eres (string * report_entry) :=
  match cr !! i with
  | Some it => EOk it
  | None => ERaise IndexError
  end.

(** [cr[k]] *)
Definition item_of (cr : list (string * report_entry)) (k : string)
  : eres report_entry :=
  match Dict.get cr k with
  | Some v => EOk v
  | None => ERaise (KeyError k)
  end.

(** [r['f1-score']]: a float is not subscriptable *)
Definition f1_of (r : report_entry) : eres Q :=
  match r with
  | Row _ _ f _ => EOk f
  | Scalar _ => ERaise TypeError
  end.

(** the comprehension of line 316 over the items from index [i] on:
    [r['f1-score']] is read for the items whose index is below [n] *)
Fixpoint f1_results (n i : nat) (items : list (string * report_entry))
  : eres (list (string * Q)) :=
  match items with
  | [] => EOk []
  | (l, r) :: rest =>
      if (i <? n)%nat
      then ebind (f1_of r) (fun f =>
           ebind (f1_results n (S i) rest) (fun fs => EOk ((l, f) :: fs)))
      else f1_results n (S i) rest
  end.

(** [evaluate] (lines 275-323) with [classification_report] as a
    parameter; it returns the mean loss, the report value taken for the
    accuracy and the macro-F1.  The forward passes and the logging are
    collaborators. *)
Definition evaluate_loader
  (classification_report :
     list Z -> list Z -> list string -> list (string * report_entry))
  (num_label : string) (batches : list DevBatch)
  : eres (Q * report_entry * Q) :=
  let label_list := label_list_of num_label in
  let st := eval_loop 0 batches eval_init in
  match label_list with
  | None => ERaise (Py (UnboundLocalError "label_list"))
  | Some label_list =>
      let dev_cr :=
        classification_report (total_y st) (total_y_hat st) label_list in
      ebind (item_at dev_cr (length label_list)) (fun it =>
      let val_acc := snd it in
      ebind (item_of dev_cr "macro avg") (fun macro =>
      ebind (f1_of macro) (fun val_macro_f1 =>
      ebind (f1_results (length label_list) 0 dev_cr) (fun _ =>
      match val_step st with
      | None => ERaise (Py (UnboundLocalError "val_step"))
      | Some i =>
          EOk ((val_loss st / inject_Z (i + 1))%Q, val_acc, val_macro_f1)
      end))))
  end.

(** the report over the whole loader: all labels and all predictions,
    in loader order *)
Definition corpus_report
  (classification_report :
     list Z -> list Z -> list string -> list (string * report_entry))
  (batches : list DevBatch) (label_list : list string)
  : list (string * report_entry) :=
  classification_report (concat (map y_dev batches))
                        (concat (map y_max batches)) label_list.

(** *** More concrete inputs *)

(** no padding at all: [max_len = 0] *)
Definition unbounded_collator : ClassificationBatchFunction :=
  init 0 0 (Some 1) (Some 2).

(** the defaults of [__init__]: both markers are the pad id *)
Definition default_collator : ClassificationBatchFunction :=
  init 6 0 None None.

Definition args_of (selector : string) (n g ls : Z) : Args :=
  {| num_label := selector; epochs := n; gradient_accumulation_steps := g;
     logging_step := ls; fp16 := false |}.

(** five micro-batches with losses 1, 2, 3, 4, 5; validation as in
    [env_improving] *)
Definition env_five : Env :=
  {| tr_len := 5;
     model_out := fun _ i => {| m_loss := inject_Z (Z.of_nat i + 1);
                                m_acc := 1; m_f1 := 1 |};
     dev_out := dev_out env_improving |}.

Definition env_empty : Env :=
  {| tr_len := 0;
     model_out := model_out env_improving;
     dev_out := dev_out env_improving |}.

Definition skt_checkpoint : list (string * Z) :=
  [("embeddings.weight"%string, 10); ("encoder.layer.0.weight"%string, 20)].

(** a report with one row per target name, then the accuracy and the two
    averages; the numbers are arbitrary *)
Definition toy_report (y y_hat : list Z) (names : list string)
  : list (string * report_entry) :=
  map (fun n => (n, Row 1 1 1 1)) names
  ++ [("accuracy"%string, Scalar (1 # 2));
      ("macro avg"%string, Row 1 1 (3 # 4) 2);
      ("weighted avg"%string, Row 1 1 1 2)].

Definition toy_batches : list DevBatch :=
  [ {| y_dev := [0; 1]; y_max := [0; 0]; loss_item := 1 |};
    {| y_dev := [1]; y_max := [1]; loss_item := 2 |} ].

(** ** Proof tools *)

Ltac st_simpl :=
  cbn [fst snd];
  unfold set_train, set_step, add_event, set_logging, set_global_step, set_best;
  cbn [trace best_val_loss best_val_acc step global_step
       train_loss train_acc train_f1 logging_loss logging_acc logging_f1].

Ltac frame_done :=
  st_simpl; split; [reflexivity | split; [reflexivity | ]];
  eexists; rewrite <- ?app_assoc; split; reflexivity.

(** * Properties of the collator *)

Section PadFacts.

Variable self : ClassificationBatchFunction.

Lemma pad_short (sample : list Z) :
  Py.len sample < max_len self ->
  pad self sample
  = sample ++ replicate (Z.to_nat (max_len self - Py.len sample)) (pad_idx self).
Proof.
  intros Hlt. unfold pad.
  destruct (Z.ltb_spec 0 (max_len self - Py.len sample)); [reflexivity | lia].
Qed.

Lemma pad_long (sample : list Z) :
  0 < max_len self <= Py.len sample ->
  pad self sample = drop (length sample - Z.to_nat (max_len self)) sample.
Proof.
  intros [Hpos Hle]. unfold pad, Py.slice_from. unfold Py.len in *.
  destruct (Z.ltb_spec 0 (max_len self - Z.of_nat (length sample))); [lia | ].
  destruct (Z.ltb_spec (- max_len self) 0); [ | lia].
  f_equal. lia.
Qed.

(** [pad] always returns [self.max_len] elements when that is positive *)
Lemma pad_length (sample : list Z) :
  0 < max_len self -> Py.len (pad self sample) = max_len self.
Proof.
  intros Hpos.
  destruct (Z_lt_le_dec (Py.len sample) (max_len self)) as [Hlt | Hge].
  - rewrite pad_short by assumption. unfold Py.len in *.
    rewrite length_app, length_replicate. lia.
  - rewrite pad_long by lia. unfold Py.len in *. rewrite length_drop. lia.
Qed.

(** truncation keeps the tail: the last element survives *)
Lemma pad_keeps_last (sample : list Z) (x : Z) :
  0 < max_len self <= Py.len sample ->
  last sample = Some x -> last (pad self sample) = Some x.
Proof.
  intros Hb Hl. rewrite pad_long by assumption.
  rewrite last_lookup in *. rewrite length_drop.
  rewrite lookup_drop. rewrite <- Hl. f_equal. unfold Py.len in Hb. lia.
Qed.

(** a sample with both markers that does not fit [self.max_len] is cut
    to its last [self.max_len] elements and still ends with the
    boundary-end marker *)
Lemma pad_truncates_to_max_len (t : list Z) :
  0 < max_len self <= Py.len t + 2 ->
  let row := pad self ([cls_idx self] ++ t ++ [sep_idx self]) in
  row = drop (length t + 2 - Z.to_nat (max_len self))
             ([cls_idx self] ++ t ++ [sep_idx self]) /\
  Py.len row = max_len self /\
  last row = Some (sep_idx self).
Proof.
  intros Hb row. subst row.
  set (sample := [cls_idx self] ++ t ++ [sep_idx self]).
  assert (Hlen : length sample = (length t + 2)%nat).
  { unfold sample. rewrite !length_app. cbn [length]. lia. }
  assert (Hb' : 0 < max_len self <= Py.len sample).
  { unfold Py.len in *. lia. }
  split; [ | split].
  - rewrite pad_long by assumption. rewrite Hlen. reflexivity.
  - apply pad_length. lia.
  - apply pad_keeps_last; [assumption | ].
    unfold sample. rewrite app_assoc. apply last_snoc.
Qed.

Lemma masks_of_entries (toks : list (list Z)) :
  masks_of self toks = map (map (mask_entry self)) toks.
Proof.
  unfold masks_of, Torch.masked_fill, Torch.ones_like, Torch.eq_scalar.
  induction toks as [| r toks IH]; [reflexivity | ].
  cbn [map zip_with]. rewrite IH. f_equal.
  clear IH. induction r as [| x r IHr]; [reflexivity | ].
  cbn [map zip_with]. rewrite IHr. reflexivity.
Qed.

(** with pad id 0 the mask is the indicator of the non-pad positions *)
Lemma mask_entry_pad0 (x : Z) :
  pad_idx self = 0 -> mask_entry self x = if x =? 0 then 0 else 1.
Proof. intros H. unfold mask_entry. rewrite H. reflexivity. Qed.

Lemma pad_in_int64 (sample : list Z) :
  Torch.in_int64 (pad_idx self) = true ->
  forallb Torch.in_int64 sample = true ->
  forallb Torch.in_int64 (pad self sample) = true.
Proof.
  intros Hp Hs. rewrite forallb_forall in *. intros x Hx.
  unfold pad, Py.repeat_list, Py.slice_from in Hx.
  destruct (0 <? _) in Hx.
  - apply in_app_or in Hx as [Hx | Hx]; [auto | ].
    apply list_elem_of_In, elem_of_replicate in Hx as [-> _]. exact Hp.
  - apply Hs. apply list_elem_of_In. apply list_elem_of_In in Hx.
    apply list_elem_of_lookup in Hx as [i Hi]. rewrite lookup_drop in Hi.
    apply list_elem_of_lookup. eauto.
Qed.

(** every row has [self.max_len] entries, whatever the batch *)
Lemma rows_rectangular (batch : list (list Z * Z)) :
  0 < max_len self ->
  Forall (fun r => Py.len r = max_len self) (rows_of self batch).
Proof.
  intros Hpos. unfold rows_of. apply List.Forall_forall. intros r Hr.
  apply in_map_iff in Hr as [t [<- _]]. apply pad_length. exact Hpos.
Qed.

Lemma tensor2_rectangular (rows : list (list Z)) (n : Z) :
  Forall (fun r => Py.len r = n) rows ->
  forallb (forallb Torch.in_int64) rows = true ->
  Torch.tensor2 rows = Ok rows.
Proof.
  intros Hlen Hr. unfold Torch.tensor2.
  destruct rows as [| r rs]; [reflexivity | ].
  rewrite Hr. inversion Hlen as [| ? ? Hr0 Hrs]; subst.
  replace (forallb _ rs) with true; [reflexivity | ].
  symmetry. apply forallb_forall. intros r' Hr'.
  rewrite List.Forall_forall in Hrs. apply Hrs in Hr'.
  apply Nat.eqb_eq. unfold Py.len in *. lia.
Qed.

Lemma call_nonempty (batch : list (list Z * Z)) :
  batch <> [] ->
  call self batch
  = res_bind (batch_max_len self (map fst batch)) (fun _ =>
    res_bind (Torch.tensor2 (rows_of self batch)) (fun tokens =>
    res_bind (Torch.tensor1 (map snd batch)) (fun label =>
    Ok (tokens, masks_of self tokens, label)))).
Proof. destruct batch; [congruence | reflexivity]. Qed.

(** whatever [__call__] returns is made of the padded rows, their mask
    and the labels *)
Lemma call_inv (batch : list (list Z * Z)) (toks masks : list (list Z))
  (labels : list Z) :
  call self batch = Ok (toks, masks, labels) ->
  toks = rows_of self batch /\
  masks = map (map (mask_entry self)) toks /\
  labels = map snd batch.
Proof.
  destruct batch as [| b batch']; [discriminate | ].
  rewrite call_nonempty by discriminate.
  set (batch := b :: batch').
  destruct (batch_max_len self (map fst batch)); [ | discriminate].
  cbn [res_bind]. unfold Torch.tensor2.
  destruct (rows_of self batch) as [| r rs] eqn:Hrows.
  - cbn [res_bind]. unfold Torch.tensor1.
    destruct (forallb _ _); [ | discriminate]. cbn [res_bind].
    intros H. inversion H; subst. rewrite masks_of_entries. auto.
  - destruct (negb _); [discriminate | ].
    destruct (forallb _ (r :: rs)); [ | discriminate].
    cbn [res_bind]. unfold Torch.tensor1.
    destruct (forallb _ _); [ | discriminate]. cbn [res_bind].
    intros H. inversion H; subst. rewrite masks_of_entries. auto.
Qed.

(** [__call__] returns on every non-empty batch of ids that fit a tensor
    when [self.max_len] is positive *)
Lemma call_ok (batch : list (list Z * Z)) :
  batch <> [] -> 0 < max_len self -> ids_ok self batch = true ->
  call self batch
  = Ok (rows_of self batch, map (map (mask_entry self)) (rows_of self batch),
        map snd batch).
Proof.
  intros Hne Hpos Hids. rewrite call_nonempty by assumption.
  destruct batch as [| b batch']; [congruence | ].
  set (batch := b :: batch') in *.
  unfold ids_ok in Hids. repeat rewrite andb_true_iff in Hids.
  destruct Hids as [[[Hp Hc] Hs] Hb]. rewrite forallb_forall in Hb.
  unfold batch_max_len. cbn [map Py.max_of res_bind].
  rewrite (tensor2_rectangular _ (max_len self)).
  - cbn [res_bind]. unfold Torch.tensor1.
    replace (forallb Torch.in_int64 (map snd batch)) with true.
    + rewrite masks_of_entries. reflexivity.
    + symmetry. apply forallb_forall. intros y Hy.
      apply in_map_iff in Hy as [b' [<- Hb']].
      apply Hb in Hb'. apply andb_true_iff in Hb'. tauto.
  - apply rows_rectangular; assumption.
  - apply forallb_forall. intros r Hr. unfold rows_of in Hr.
    apply in_map_iff in Hr as [t [<- Ht]].
    apply in_map_iff in Ht as [b' [<- Hb']].
    apply Hb in Hb'. apply andb_true_iff in Hb' as [Hb' _].
    apply pad_in_int64; [assumption | ].
    rewrite forallb_app. cbn. rewrite Hc. rewrite forallb_app. cbn.
    rewrite Hb', Hs. reflexivity.
Qed.

(** the width of the token matrix is [self.max_len]; the batch-relative
    length of line 42 plays no part *)
Lemma call_width (batch : list (list Z * Z)) (toks masks : list (list Z))
  (labels : list Z) :
  0 < max_len self ->
  call self batch = Ok (toks, masks, labels) ->
  Forall (fun r => Py.len r = max_len self) toks.
Proof.
  intros Hpos Hcall. apply call_inv in Hcall as (-> & _ & _).
  apply rows_rectangular. exact Hpos.
Qed.

End PadFacts.

(** C1, evaluated on the code.  On the batch [[5;6;7]], [[8;9]] with a
    configured maximum of 6 the batch-relative length of line 42 is
    [min 6 3 = 3], and the collator returns rows of 6 entries: the rows
    are padded to the configured maximum, not to the batch-relative
    length. *)
Theorem width_is_configured_max_len :
  batch_max_len bert_collator (map fst scenario_batch) = Ok 3 /\
  exists toks masks labels,
    call bert_collator scenario_batch = Ok (toks, masks, labels) /\
    map Py.len toks = [6; 6].
Proof.
  split; [reflexivity | ].
  eexists; eexists; eexists. split; reflexivity.
Qed.

(** C2, evaluated on the code.  With pad id 1 the sequence [[5;6]] is
    padded with two 1s, and the mask is 1 at those two positions as well:
    the pad positions are filled with the pad id, not with 0. *)
Theorem mask_is_pad_id_at_pad_positions :
  call pad1_collator [([5; 6], 0)]
  = Ok ([[2; 5; 6; 3; 1; 1]], [[1; 1; 1; 1; 1; 1]], [0]).
Proof. reflexivity. Qed.

(** C6.  The batch [(tokens=[5,6,7], label=0), (tokens=[8,9], label=1)]
    with pad 0, boundary-start 1, boundary-end 2 and maximum length 6 is
    collated to the token matrix [[1,5,6,7,2,0],[1,8,9,2,0,0]], the mask
    [[1,1,1,1,1,0],[1,1,1,1,0,0]] and the labels [0,1]. *)
Theorem collator_scenario :
  call (init 6 0 (Some 1) (Some 2)) [([5; 6; 7], 0); ([8; 9], 1)]
  = Ok ([[1; 5; 6; 7; 2; 0]; [1; 8; 9; 2; 0; 0]],
        [[1; 1; 1; 1; 1; 0]; [1; 1; 1; 1; 0; 0]],
        [0; 1]).
Proof. reflexivity. Qed.

(** C7, evaluated on the code.  For the one-sample batch [[5;6;7]] and a
    configured maximum of 6 the batch-relative length is 3 and the
    sample with its two markers has 5 elements, more than 3; the
    collator's row is the sample padded to 6 entries, it is not the last
    3 elements [[6;7;2]], and its final element is the pad id, not the
    boundary-end marker. *)
Theorem long_sample_is_padded_not_cut :
  batch_max_len bert_collator [[5; 6; 7]] = Ok 3 /\
  Py.len ([cls_idx bert_collator] ++ [5; 6; 7] ++ [sep_idx bert_collator]) = 5 /\
  exists row masks labels,
    call bert_collator [([5; 6; 7], 0)] = Ok ([row], masks, labels) /\
    row = [1; 5; 6; 7; 2; 0] /\
    Py.len row = 6 /\
    last row = Some (pad_idx bert_collator) /\
    row <> [6; 7; 2].
Proof.
  split; [reflexivity | ]. split; [reflexivity | ].
  eexists; eexists; eexists. split; [reflexivity | ].
  split; [reflexivity | ]. split; [reflexivity | ]. split; [reflexivity | ].
  discriminate.
Qed.

(** * The collator on list objects *)

Section StoreFacts.

Variable self : ClassificationBatchFunction.

(** building one row adds objects to the store and changes none *)
Lemma padded_row_spec (h : list (list Z)) (t : nat) :
  exists q news,
    padded_row self t h = (Ok q, h ++ news) /\
    (h ++ news) !! q
    = Some (pad self ([cls_idx self] ++ default [] (h !! t) ++ [sep_idx self])).
Proof.
  unfold padded_row, pad_obj, Store.bind, Store.read, Store.alloc, Store.extend,
    Store.ret.
  set (s := [cls_idx self] ++ default [] (h !! t) ++ [sep_idx self]).
  assert (Hs : (h ++ [s]) !! length h = Some s).
  { rewrite lookup_app_r by lia. rewrite Nat.sub_diag. reflexivity. }
  rewrite Hs. change (default [] (Some s)) with s. unfold pad.
  destruct (0 <? max_len self - Py.len s); cbv beta.
  - rewrite Hs. change (default [] (Some s)) with s.
    exists (length h),
      [s ++ Py.repeat_list (pad_idx self) (max_len self - Py.len s)].
    rewrite insert_app_r_alt by lia. rewrite Nat.sub_diag.
    cbn [insert list_insert].
    split; [reflexivity | ].
    rewrite lookup_app_r by lia. rewrite Nat.sub_diag. reflexivity.
  - exists (length (h ++ [s])), [s; Py.slice_from (- max_len self) s].
    split.
    + rewrite <- app_assoc. reflexivity.
    + rewrite length_app. cbn [length]. rewrite lookup_app_r by lia.
      replace (length h + 1 - length h)%nat with 1%nat by lia. reflexivity.
Qed.

Lemma lookup_extends (h news : list (list Z)) (p : nat) (l : list Z) :
  h !! p = Some l -> (h ++ news) !! p = Some l.
Proof.
  intros H. rewrite lookup_app_l; [assumption | ].
  eapply lookup_lt_Some; eauto.
Qed.

Lemma default_extends (h news : list (list Z)) (p : nat) :
  (p < length h)%nat -> default [] ((h ++ news) !! p) = default [] (h !! p).
Proof. intros H. rewrite lookup_app_l by assumption. reflexivity. Qed.

Lemma mapM_padded_row (ts : list nat) : forall h : list (list Z),
  Forall (fun t => (t < length h)%nat) ts ->
  exists qs news,
    Store.mapM (padded_row self) ts h = (Ok qs, h ++ news) /\
    map (fun q => default [] ((h ++ news) !! q)) qs
    = map (fun t => pad self ([cls_idx self] ++ default [] (h !! t)
                                ++ [sep_idx self])) ts.
Proof.
  induction ts as [| t ts IH]; intros h Hv.
  - exists [], []. rewrite app_nil_r. split; reflexivity.
  - inversion Hv as [| ? ? Ht Hts]; subst.
    destruct (padded_row_spec h t) as (q & n1 & Hrun & Hq).
    destruct (IH (h ++ n1)) as (qs & n2 & Hrest & Hrows).
    { eapply Forall_impl; [exact Hts | ]. intros x Hx. cbn in Hx.
      rewrite length_app. lia. }
    exists (q :: qs), (n1 ++ n2). split.
    + cbn [Store.mapM]. unfold Store.bind at 1. rewrite Hrun.
      unfold Store.bind at 1. rewrite Hrest. unfold Store.ret.
      rewrite app_assoc. reflexivity.
    + cbn [map]. rewrite app_assoc. rewrite Hrows.
      rewrite (lookup_extends _ n2 _ _ Hq). cbn [default]. f_equal.
      apply map_ext_in. intros x Hx.
      rewrite default_extends; [reflexivity | ].
      rewrite List.Forall_forall in Hts. apply Hts. exact Hx.
Qed.

Lemma mapM_read (qs : list nat) (h : list (list Z)) :
  Store.mapM Store.read qs h = (Ok (map (fun q => default [] (h !! q)) qs), h).
Proof.
  induction qs as [| q qs IH]; [reflexivity | ].
  cbn [Store.mapM map]. unfold Store.bind at 1. unfold Store.read at 1.
  unfold Store.bind at 1. rewrite IH. reflexivity.
Qed.

Lemma mapM_len (ts : list nat) (h : list (list Z)) :
  Store.mapM (fun i => Store.bind (Store.read i)
                                  (fun l => Store.ret (Py.len l))) ts h
  = (Ok (map (fun t => Py.len (default [] (h !! t))) ts), h).
Proof.
  induction ts as [| t ts IH]; [reflexivity | ].
  cbn [Store.mapM map]. unfold Store.bind at 1.
  unfold Store.bind at 1. unfold Store.read at 1. unfold Store.ret at 1.
  unfold Store.bind at 1. rewrite IH. reflexivity.
Qed.

(** the collator on objects computes [call] of the batch the references
    denote, and only adds objects to the store *)
Lemma call_obj_spec (h : list (list Z)) (batch : list (nat * Z)) :
  valid_batch h batch ->
  exists news, call_obj self batch h = (call self (deref h batch), h ++ news).
Proof.
  intros Hv. destruct batch as [| b batch'].
  { exists []. rewrite app_nil_r. reflexivity. }
  set (batch := b :: batch') in *.
  assert (Hts : Forall (fun t => (t < length h)%nat) (map fst batch)).
  { apply List.Forall_forall. intros t Ht.
    apply in_map_iff in Ht as [b' [<- Hb']].
    unfold valid_batch in Hv. rewrite List.Forall_forall in Hv. auto. }
  destruct (mapM_padded_row (map fst batch) h Hts) as (qs & news & Hrun & Hrows).
  assert (Htok : map fst (deref h batch)
                 = map (fun t => default [] (h !! t)) (map fst batch)).
  { unfold deref. rewrite !map_map. reflexivity. }
  assert (Hlab : map snd (deref h batch) = map snd batch).
  { unfold deref. rewrite map_map. reflexivity. }
  exists news. rewrite call_nonempty by discriminate.
  unfold rows_of. rewrite Htok, Hlab.
  unfold call_obj. subst batch. cbv iota. set (batch := b :: batch') in *.
  unfold Store.bind at 1. rewrite mapM_len.
  unfold batch_max_len. rewrite !map_map.
  unfold Store.bind at 1. unfold Store.lift at 1.
  destruct (res_bind (Py.max_of _) _) as [m | e] eqn:Hmax.
  2:{ exfalso. cbn in Hmax. discriminate. }
  cbn [res_bind].
  unfold Store.bind at 1. rewrite Hrun.
  unfold Store.bind at 1. rewrite mapM_read. rewrite Hrows. rewrite !map_map.
  unfold Store.bind at 1. unfold Store.lift at 1.
  destruct (Torch.tensor2 _) as [toks | e]; [ | reflexivity].
  cbn [res_bind].
  unfold Store.bind at 1. unfold Store.lift at 1.
  destruct (Torch.tensor1 _) as [lab | e]; reflexivity.
Qed.

Lemma deref_extends (h news : list (list Z)) (batch : list (nat * Z)) :
  valid_batch h batch -> deref (h ++ news) batch = deref h batch.
Proof.
  intros Hv. unfold deref. apply map_ext_in. intros b Hb.
  unfold valid_batch in Hv. rewrite List.Forall_forall in Hv.
  rewrite default_extends by auto. reflexivity.
Qed.

Lemma valid_batch_extends (h news : list (list Z)) (batch : list (nat * Z)) :
  valid_batch h batch -> valid_batch (h ++ news) batch.
Proof.
  unfold valid_batch. intros Hv. eapply Forall_impl; [exact Hv | ].
  intros b Hb. cbn in Hb. rewrite length_app. lia.
Qed.

(** C8.  For every non-empty batch of references to token lists, a
    second call of the collator on the store the first call left behind
    gives the same result as the first; the first call leaves every list
    that existed before it unchanged; and when the configured maximum
    length is positive and the ids fit a tensor, that result is a triple
    of tensors. *)
Theorem collate_twice (h : list (list Z)) (batch : list (nat * Z)) :
  batch <> [] ->
  valid_batch h batch ->
  let first := call_obj self batch h in
  let second := call_obj self batch (snd first) in
  fst first = fst second /\
  (forall p, (p < length h)%nat -> snd first !! p = h !! p) /\
  (0 < max_len self -> ids_ok self (deref h batch) = true ->
   exists out, fst first = Ok out).
Proof.
  intros Hne Hv first second. subst first second.
  destruct (call_obj_spec h batch Hv) as [news Hfirst].
  rewrite Hfirst. cbn [fst snd].
  destruct (call_obj_spec (h ++ news) batch (valid_batch_extends _ _ _ Hv))
    as [news' Hsecond].
  rewrite Hsecond. cbn [fst]. rewrite deref_extends by assumption.
  split; [reflexivity | ]. split.
  - intros p Hp. apply lookup_app_l. exact Hp.
  - intros Hpos Hids. eexists. apply call_ok; try assumption.
    destruct batch; [congruence | discriminate].
Qed.

End StoreFacts.

Lemma collate_twice_witness :
  let first := call_obj bert_collator scenario_refs scenario_heap in
  let second := call_obj bert_collator scenario_refs (snd first) in
  fst first = fst second /\
  (forall p, (p < length scenario_heap)%nat ->
             snd first !! p = scenario_heap !! p) /\
  (0 < max_len bert_collator ->
   ids_ok bert_collator (deref scenario_heap scenario_refs) = true ->
   exists out, fst first = Ok out).
Proof.
  apply (collate_twice bert_collator scenario_heap scenario_refs).
  - discriminate.
  - unfold valid_batch, scenario_refs, scenario_heap.
    repeat constructor.
Defined.

(** * Properties of the training loop *)

Lemma Qle_bool_refl (x : Q) : Qle_bool x x = true.
Proof. apply Qle_bool_iff. apply Qle_refl. Qed.

Lemma flt_not_nan (a b : fl) : flt a b = true -> a <> NaN.
Proof. destruct a; [discriminate | congruence ..]. Qed.

Lemma flt_fle (a b : fl) : flt a b = true -> fle a b = true.
Proof.
  destruct a, b; cbn; try congruence. unfold Qlt_bool. intros H.
  apply negb_true_iff in H. apply Qle_bool_iff.
  destruct (Qlt_le_dec q q0) as [Hlt | Hle]; [apply Qlt_le_weak; exact Hlt | ].
  apply Qle_bool_iff in Hle. congruence.
Qed.

Lemma fle_refl (a : fl) : a <> NaN -> fle a a = true.
Proof. destruct a; cbn; try congruence. intros _. apply Qle_bool_refl. Qed.

Lemma inner_frame_refl (s : St) : inner_frame s s.
Proof.
  repeat split. exists []. rewrite app_nil_r. split; reflexivity.
Qed.

Lemma inner_frame_trans (s1 s2 s3 : St) :
  inner_frame s1 s2 -> inner_frame s2 s3 -> inner_frame s1 s3.
Proof.
  intros (Hl1 & Ha1 & e1 & Ht1 & He1) (Hl2 & Ha2 & e2 & Ht2 & He2).
  split; [congruence | ]. split; [congruence | ].
  exists (e1 ++ e2). rewrite Ht2, Ht1, <- app_assoc. split; [reflexivity | ].
  rewrite forallb_app, He1, He2. reflexivity.
Qed.

Lemma inner_events_saves (evs : list event) :
  forallb inner_event evs = true -> saves evs = [] /\ result_rows evs = [].
Proof.
  induction evs as [| e evs IH]; [split; reflexivity | ].
  cbn [forallb]. intros H. apply andb_true_iff in H as [He Hevs].
  destruct (IH Hevs) as [IH1 IH2].
  unfold saves, result_rows in *. cbn [omap list_omap].
  destruct e; cbn in He; try discriminate; cbn; auto.
Qed.

Lemma for_each_app {A} (l1 l2 : list A) (body : A -> M unit) (s : St) :
  for_each (l1 ++ l2) body s
  = bind (for_each l1 body) (fun _ => for_each l2 body) s.
Proof.
  revert s. induction l1 as [| x l1 IH]; intros s; [reflexivity | ].
  cbn [app for_each]. unfold bind.
  destruct (body x s) as [[[] | e] s1]; [ | reflexivity].
  rewrite IH. reflexivity.
Qed.

Lemma bind_ret_tt (m : M unit) (s : St) : bind m (fun _ => ret tt) s = m s.
Proof. unfold bind, ret. destruct (m s) as [[[] | e] s']; reflexivity. Qed.

Lemma steps_after_S (g : Z) (n : nat) :
  steps_after g (S n) = (g + 1) :: steps_after (g + 1) n.
Proof.
  unfold steps_after. cbn [seq map]. f_equal; [lia | ].
  rewrite <- seq_shift, map_map. apply map_ext. intros j. lia.
Qed.

(** ** Running the monad one step at a time *)

Lemma run_ret {A B} (a : A) (k : A -> M B) (s : St) :
  bind (ret a) k s = k a s.
Proof. reflexivity. Qed.

Lemma run_modify {B} (f : St -> St) (k : unit -> M B) (s : St) :
  bind (modify f) k s = k tt (f s).
Proof. reflexivity. Qed.

Lemma run_emit {B} (e : event) (k : unit -> M B) (s : St) :
  bind (emit e) k s = k tt (add_event e s).
Proof. reflexivity. Qed.

Lemma run_get {B} (k : St -> M B) (s : St) : bind get k s = k s s.
Proof. reflexivity. Qed.

Lemma run_lift_ok {A B} (a : A) (k : A -> M B) (s : St) :
  bind (lift (Ok a)) k s = k a s.
Proof. reflexivity. Qed.

Lemma run_lift_raise {A B} (e : exn) (k : A -> M B) (s : St) :
  bind (lift (Raise e : res A)) k s = (Raise e, s).
Proof. reflexivity. Qed.

Lemma run_local_some {A B} (name : string) (a : A) (k : A -> M B) (s : St) :
  bind (local name (Some a)) k s = k a s.
Proof. reflexivity. Qed.

Lemma run_local_none {A B} (name : string) (k : A -> M B) (s : St) :
  bind (local name (None : option A)) k s = (Raise (UnboundLocalError name), s).
Proof. reflexivity. Qed.

Lemma run_bind {A B C} (m : M A) (k1 : A -> M B) (k2 : B -> M C) (s : St) :
  bind (bind m k1) k2 s = bind m (fun a => bind (k1 a) k2) s.
Proof. unfold bind. destruct (m s) as [[a | e] s1]; reflexivity. Qed.

Lemma run_when_true {B} (m : M unit) (k : unit -> M B) (s : St) :
  bind (when true m) k s = bind m k s.
Proof. reflexivity. Qed.

Lemma run_when_false {B} (m : M unit) (k : unit -> M B) (s : St) :
  bind (when false m) k s = k tt s.
Proof. reflexivity. Qed.

Lemma run_modify_end (f : St -> St) (s : St) : modify f s = (Ok tt, f s).
Proof. reflexivity. Qed.

Lemma run_when_true_end (m : M unit) (s : St) : when true m s = m s.
Proof. reflexivity. Qed.

Lemma run_when_false_end (m : M unit) (s : St) : when false m s = (Ok tt, s).
Proof. reflexivity. Qed.

Ltac run_step :=
  first [ rewrite run_modify | rewrite run_emit | rewrite run_get
        | rewrite run_lift_ok | rewrite run_lift_raise | rewrite run_ret
        | rewrite run_local_some | rewrite run_local_none
        | rewrite run_when_true | rewrite run_when_false
        | rewrite run_bind | rewrite run_modify_end
        | rewrite run_when_true_end | rewrite run_when_false_end ];
  cbv beta; st_simpl.

Section TrainFacts.

Variable args : Args.
Variable env : Env.

(** ** The loop over micro-batches *)

Lemma micro_step_frame (epoch i : nat) (s : St) :
  inner_frame s (snd (micro_step args env epoch i s)).
Proof.
  unfold micro_step, py_mod. repeat run_step.
  destruct (logging_step args =? 0); repeat run_step; [frame_done | ].
  destruct (_ mod logging_step args =? 0); repeat run_step;
    (destruct (grad_accu args =? 0); repeat run_step; [frame_done | ]);
    (destruct (_ mod grad_accu args =? 0); repeat run_step; frame_done).
Qed.

Lemma micro_step_ok (epoch i : nat) (s : St) :
  grad_accu args <> 0 -> logging_step args <> 0 ->
  exists s', micro_step args env epoch i s = (Ok tt, s') /\
             step s' = Some (Z.of_nat i).
Proof.
  intros Hg Hl. apply Z.eqb_neq in Hg, Hl.
  unfold micro_step, py_mod. rewrite Hg, Hl. repeat run_step.
  destruct (_ mod logging_step args =? 0); repeat run_step;
    (destruct (_ mod grad_accu args =? 0); repeat run_step;
     eexists; split; reflexivity).
Qed.

Lemma micro_loop_frame (epoch : nat) (l : list nat) : forall s,
  inner_frame s (snd (for_each l (micro_step args env epoch) s)).
Proof.
  induction l as [| i l IH]; intros s; [apply inner_frame_refl | ].
  cbn [for_each]. unfold bind.
  pose proof (micro_step_frame epoch i s) as H1.
  destruct (micro_step args env epoch i s) as [[[] | e] s1]; cbn [snd] in *.
  - eapply inner_frame_trans; [exact H1 | apply IH].
  - exact H1.
Qed.

Lemma micro_loop_ok (epoch : nat) (l : list nat) : forall s,
  grad_accu args <> 0 -> logging_step args <> 0 ->
  exists s', for_each l (micro_step args env epoch) s = (Ok tt, s') /\
             step s' = match last l with
                       | Some i => Some (Z.of_nat i)
                       | None => step s
                       end.
Proof.
  induction l as [| i l IH]; intros s Hg Hl.
  - exists s. split; reflexivity.
  - destruct (micro_step_ok epoch i s Hg Hl) as (s1 & Hrun & Hstep).
    destruct (IH s1 Hg Hl) as (s2 & Hrest & Hstep2).
    exists s2. cbn [for_each]. unfold bind. rewrite Hrun.
    split; [exact Hrest | ].
    rewrite Hstep2. destruct l as [| j l']; [cbn; assumption | ].
    cbn [last].
    destruct (last (j :: l')) eqn:E; [reflexivity | ].
    apply last_None in E. discriminate.
Qed.

(** Without accumulation every micro-batch is one optimizer update, and
    the periodic log fires once at each global step that is a multiple
    of [logging_step], at no other. *)
Lemma micro_step_no_accumulation (epoch i : nat) (s : St) :
  grad_accu args = 1 -> logging_step args <> 0 ->
  exists s' evs,
    micro_step args env epoch i s = (Ok tt, s') /\
    trace s' = trace s ++ evs /\
    global_step s' = global_step s + 1 /\
    map fst (logged evs)
    = (if (global_step s + 1) mod logging_step args =? 0
       then [global_step s + 1] else []) /\
    optimizer_steps evs = 1%nat.
Proof.
  intros Hg Hl. apply Z.eqb_neq in Hl.
  unfold micro_step, py_mod. rewrite Hl, Hg. cbn [Z.eqb Z.ltb Z.compare].
  rewrite Z.mod_1_r. cbn [Z.eqb]. repeat run_step.
  destruct (_ mod logging_step args =? 0); repeat run_step;
    eexists; eexists; (split; [reflexivity | ]); st_simpl;
    rewrite <- ?app_assoc;
    (split; [reflexivity | ]); (split; [reflexivity | ]); split; reflexivity.
Qed.

Lemma logs_without_accumulation (epoch : nat) (l : list nat) : forall s,
  grad_accu args = 1 -> logging_step args <> 0 ->
  exists s' evs,
    for_each l (micro_step args env epoch) s = (Ok tt, s') /\
    trace s' = trace s ++ evs /\
    global_step s' = global_step s + Z.of_nat (length l) /\
    map fst (logged evs)
    = List.filter (fun g => g mod logging_step args =? 0)
                  (steps_after (global_step s) (length l)) /\
    optimizer_steps evs = length l.
Proof.
  induction l as [| i l IH]; intros s Hg Hl.
  - exists s, []. rewrite app_nil_r, Z.add_0_r. repeat split.
  - destruct (micro_step_no_accumulation epoch i s Hg Hl)
      as (s1 & e1 & Hrun & Ht1 & Hg1 & Hlog1 & Ho1).
    destruct (IH s1 Hg Hl) as (s2 & e2 & Hrest & Ht2 & Hg2 & Hlog2 & Ho2).
    exists s2, (e1 ++ e2). cbn [for_each]. unfold bind. rewrite Hrun.
    split; [exact Hrest | ].
    split; [rewrite Ht2, Ht1, app_assoc; reflexivity | ].
    split; [rewrite Hg2, Hg1; cbn [length]; lia | ].
    split.
    + unfold logged in *. rewrite omap_app, map_app, Hlog1, Hlog2.
      cbn [length]. rewrite steps_after_S. cbn [List.filter]. rewrite Hg1.
      destruct (_ =? 0); reflexivity.
    + unfold optimizer_steps in *.
      rewrite List.filter_app, length_app, Ho1, Ho2. reflexivity.
Qed.

(** ** One epoch *)

(** what one epoch does to the best loss, the best accuracy and the
    checkpoint, whether it completes or raises *)
Lemma epoch_body_spec (k : nat) (s : St) :
  let r := epoch_body args env k s in
  let v := dev_out env k in
  exists evs, trace (snd r) = trace s ++ evs /\ result_rows evs = [] /\
  match fst r with
  | Ok _ =>
      if flt (v_loss v) (best_val_loss s)
      then best_val_loss (snd r) = v_loss v /\
           best_val_acc (snd r) = Some (v_acc v) /\
           saves evs = [(k, BestModel); (k, TrainingArgs)]
      else best_val_loss (snd r) = best_val_loss s /\
           best_val_acc (snd r) = best_val_acc s /\
           saves evs = []
  | Raise _ =>
      best_val_loss (snd r) = best_val_loss s /\
      best_val_acc (snd r) = best_val_acc s /\
      saves evs = []
  end.
Proof.
  intros r v. subst r v. pattern (epoch_body args env k s).
  match goal with |- ?P _ => set (Post := P) end.
  unfold epoch_body, evaluate. do 2 rewrite run_modify. cbv beta.
  set (s0 := set_logging 0 0 0 (set_train 0 0 0 s)).
  pose proof (micro_loop_frame k (seq 0 (tr_len env)) s0)
    as (Hl & Ha & evs & Ht & Hin).
  destruct (inner_events_saves evs Hin) as [Hsv Hrr].
  change (best_val_loss s0) with (best_val_loss s) in *.
  change (best_val_acc s0) with (best_val_acc s) in *.
  change (trace s0) with (trace s) in *.
  unfold bind at 1.
  destruct (for_each _ _ s0) as [[[] | e] s1]; cbn [fst snd] in *.
  2:{ subst Post. cbv beta. cbn [fst snd]. exists evs. auto. }
  rewrite run_get. cbv beta.
  destruct (step s1) as [i | ]; repeat run_step.
  2:{ subst Post. cbv beta. cbn [fst snd]. exists evs. auto. }
  destruct (label_list_of (num_label args)); repeat run_step.
  2:{ subst Post. cbv beta. st_simpl.
      eexists. rewrite Ht, <- ?app_assoc. split; [reflexivity | ].
      unfold saves, result_rows in *. rewrite !omap_app, ?Hsv, ?Hrr. auto. }
  destruct (flt (v_loss (dev_out env k)) (best_val_loss s1)) eqn:Hlt;
    repeat run_step; subst Post; cbv beta; st_simpl; rewrite <- Hl, Hlt.
  all: eexists; rewrite Ht, <- ?app_assoc; split; [reflexivity | ].
  all: unfold saves, result_rows in *; rewrite !omap_app, ?Hsv, ?Hrr; auto.
Qed.

(** an epoch over a non-empty loader completes *)
Lemma epoch_body_ok (k : nat) (s : St) :
  grad_accu args <> 0 -> logging_step args <> 0 ->
  (0 < tr_len env)%nat \/ step s <> None ->
  label_list_of (num_label args) <> None ->
  exists s', epoch_body args env k s = (Ok tt, s') /\ step s' <> None.
Proof.
  intros Hg Hl Hlen Hlab. unfold epoch_body, evaluate.
  do 2 rewrite run_modify. cbv beta.
  set (s0 := set_logging 0 0 0 (set_train 0 0 0 s)).
  destruct (micro_loop_ok k (seq 0 (tr_len env)) s0 Hg Hl) as (s1 & Hrun & Hstep).
  unfold bind at 1. rewrite Hrun.
  assert (Hs1 : step s1 <> None).
  { rewrite Hstep.
    destruct (last (seq 0 (tr_len env))) eqn:Hlast; [discriminate | ].
    change (step s0) with (step s).
    destruct Hlen as [Hlen | Hlen]; [ | exact Hlen].
    apply last_None in Hlast. destruct (tr_len env); [lia | discriminate]. }
  rewrite run_get. cbv beta.
  destruct (step s1) as [i | ] eqn:Hst; [ | congruence]. repeat run_step.
  destruct (label_list_of (num_label args)); [ | congruence]. repeat run_step.
  destruct (flt _ _); repeat run_step; eexists; (split; [reflexivity | ]);
    st_simpl; congruence.
Qed.

(** ** The loop over epochs *)

Lemma epochs_loop_S (k : nat) (s : St) :
  epochs_loop args env (S k) s
  = bind (epochs_loop args env k) (fun _ => epoch_body args env k) s.
Proof.
  unfold epochs_loop. rewrite seq_S, for_each_app. cbn [for_each Nat.add].
  unfold bind at 1 3.
  destruct (for_each _ _ s) as [[[] | e] s1]; [ | reflexivity].
  apply bind_ret_tt.
Qed.

Lemma epochs_loop_ok (k : nat) :
  grad_accu args <> 0 -> logging_step args <> 0 ->
  ((0 < k)%nat -> (0 < tr_len env)%nat) ->
  label_list_of (num_label args) <> None ->
  exists s, epochs_loop args env k init_st = (Ok tt, s).
Proof.
  intros Hg Hl Hlen Hlab. induction k as [| k IH].
  - exists init_st. reflexivity.
  - destruct IH as [s Hk]; [intros _; apply Hlen; lia | ].
    destruct (epoch_body_ok k s Hg Hl (or_introl (Hlen ltac:(lia))) Hlab)
      as (s' & Hs' & _).
    exists s'. rewrite epochs_loop_S. unfold bind. rewrite Hk. exact Hs'.
Qed.

(** after [k] completed epochs the best loss is the least seen so far *)
Lemma epochs_loop_best (k : nat) : forall s,
  epochs_loop args env k init_st = (Ok tt, s) ->
  best_val_loss s = best_so_far env k /\ best_val_loss s <> NaN.
Proof.
  induction k as [| k IH]; intros s Hrun.
  - inversion Hrun; subst. split; [reflexivity | discriminate].
  - rewrite epochs_loop_S in Hrun. unfold bind in Hrun.
    destruct (epochs_loop args env k init_st) as [[[] | e] s1] eqn:Hk;
      [ | discriminate].
    destruct (IH s1 eq_refl) as [Hbest Hnan].
    pose proof (epoch_body_spec k s1) as (evs & _ & _ & Hspec).
    rewrite Hrun in Hspec. cbn [fst snd] in Hspec.
    unfold best_so_far. rewrite seq_S, fold_left_app. cbn [fold_left Nat.add].
    fold (best_so_far env k). rewrite <- Hbest.
    destruct (flt _ _) eqn:Hlt; destruct Hspec as (-> & _ & _).
    + split; [reflexivity | ]. eapply flt_not_nan; eauto.
    + split; [reflexivity | assumption].
Qed.

(** while no validation loss is below the sentinel nothing is saved and
    the best accuracy stays unbound, however the loop ends *)
Lemma epochs_loop_no_improvement (k : nat) : forall r s,
  (forall e, (e < k)%nat -> flt (v_loss (dev_out env e)) sentinel = false) ->
  epochs_loop args env k init_st = (r, s) ->
  best_val_loss s = sentinel /\ best_val_acc s = None /\
  result_rows (trace s) = [] /\ saves (trace s) = [].
Proof.
  induction k as [| k IH]; intros r s Hno Hrun.
  - inversion Hrun; subst. repeat split.
  - rewrite epochs_loop_S in Hrun. unfold bind in Hrun.
    destruct (epochs_loop args env k init_st) as [r1 s1] eqn:Hk.
    destruct (IH r1 s1) as (Hb & Ha & Hr & Hs);
      [intros; apply Hno; lia | reflexivity | ].
    destruct r1 as [[] | e].
    2:{ inversion Hrun; subst. auto. }
    pose proof (epoch_body_spec k s1) as (evs & Ht & Hrr & Hspec).
    rewrite Hrun in Ht, Hspec. cbn [fst snd] in Ht, Hspec.
    rewrite Hb, (Hno k) in Hspec by lia.
    assert (Hfacts : best_val_loss s = sentinel /\
                     best_val_acc s = best_val_acc s1 /\ saves evs = []).
    { destruct r; exact Hspec. }
    destruct Hfacts as (Hl & Hacc & Hsv).
    rewrite Hl, Hacc, Ht. unfold result_rows, saves in *.
    rewrite !omap_app, Hr, Hs, Hrr, Hsv. auto.
Qed.

(** ** The claims about [train] *)

(** C5.  At every epoch boundary of a run: the best validation loss
    recorded before epoch [k] is the least seen so far (sentinel
    included); the best loss recorded after the epoch is not above the
    one recorded before it; and the epoch writes the checkpoint (the
    model weights, then the hyperparameter configuration) when its
    validation loss is strictly below the best so far, and writes
    nothing otherwise. *)
Theorem checkpoint_policy (k : nat) (s s' : St) :
  epochs_loop args env k init_st = (Ok tt, s) ->
  epoch_body args env k s = (Ok tt, s') ->
  let v := dev_out env k in
  best_val_loss s = best_so_far env k /\
  fle (best_val_loss s') (best_val_loss s) = true /\
  saves (trace s')
  = saves (trace s)
    ++ (if flt (v_loss v) (best_val_loss s)
        then [(k, BestModel); (k, TrainingArgs)] else []).
Proof.
  intros Hk Hbody v. destruct (epochs_loop_best k s Hk) as [Hbest Hnan].
  split; [exact Hbest | ].
  pose proof (epoch_body_spec k s) as (evs & Ht & _ & Hspec).
  rewrite Hbody in Ht, Hspec. cbn [fst snd] in Ht, Hspec. fold v in Hspec.
  rewrite Ht. unfold saves at 1. rewrite omap_app.
  fold (saves (trace s)) (saves evs).
  destruct (flt (v_loss v) (best_val_loss s)) eqn:Hlt;
    destruct Hspec as (Hl & _ & ->); rewrite Hl.
  - split; [apply flt_fle; exact Hlt | reflexivity].
  - split; [apply fle_refl; exact Hnan | reflexivity].
Qed.

(** C9.  With a label-set selector other than 'multi' and 'binary'
    [train] raises on its first read of [label_list], which no branch
    has assigned; the state is the initial one and the trace is empty:
    no forward pass, no backward pass and no optimizer update has
    happened. *)
Theorem unknown_selector_is_fatal :
  num_label args <> "multi"%string -> num_label args <> "binary"%string ->
  train args env init_st = (Raise (UnboundLocalError "label_list"), init_st) /\
  trace (snd (train args env init_st)) = [].
Proof.
  intros Hm Hb. unfold train, label_list_of.
  apply String.eqb_neq in Hm, Hb. rewrite Hm, Hb. split; reflexivity.
Qed.

(** C10.  When no epoch's validation loss is strictly below the
    sentinel (no epoch at all, or only NaN or losses of at least 1e+9),
    [train] ends in an exception, the best validation accuracy is
    unbound at that point and no row has been appended to the results
    table; and when nothing else fails first (a supported selector,
    non-zero accumulation factor and logging interval, a non-empty
    loader if an epoch is run) the exception is the unbound read of
    [best_val_acc] in the results record. *)
Theorem no_improvement_no_result_row :
  (forall e, (e < Z.to_nat (epochs args))%nat ->
             flt (v_loss (dev_out env e)) sentinel = false) ->
  exists x s,
    train args env init_st = (Raise x, s) /\
    best_val_acc s = None /\
    result_rows (trace s) = [] /\
    (label_list_of (num_label args) <> None ->
     grad_accu args <> 0 -> logging_step args <> 0 ->
     (0 < epochs args -> (0 < tr_len env)%nat) ->
     x = UnboundLocalError "best_val_acc").
Proof.
  intros Hno. unfold train, py_floordiv.
  destruct (label_list_of (num_label args)) as [labels | ] eqn:Hlab.
  2:{ rewrite run_local_none. eexists; eexists. split; [reflexivity | ].
      split; [reflexivity | ]. split; [reflexivity | congruence]. }
  rewrite run_local_some.
  destruct (grad_accu args =? 0) eqn:Hg.
  { cbn [res_bind]. rewrite run_lift_raise. eexists; eexists.
    split; [reflexivity | ]. split; [reflexivity | ]. split; [reflexivity | ].
    apply Z.eqb_eq in Hg. congruence. }
  cbn [res_bind]. rewrite run_lift_ok. unfold bind at 1.
  destruct (epochs_loop args env (Z.to_nat (epochs args)) init_st)
    as [r s] eqn:Hrun.
  destruct (epochs_loop_no_improvement _ r s Hno Hrun) as (_ & Ha & Hr & _).
  destruct r as [[] | e].
  - rewrite run_get, Ha, run_local_none. eexists; eexists.
    split; [reflexivity | ]. auto.
  - exists e, s. split; [reflexivity | ]. split; [exact Ha | ].
    split; [exact Hr | ]. intros _ Hg' Hl Hlen.
    destruct (epochs_loop_ok (Z.to_nat (epochs args)) Hg' Hl) as [s2 Hok];
      [intros; apply Hlen; lia | congruence | congruence].
Qed.

End TrainFacts.

Lemma checkpoint_policy_witness :
  let s := snd (epochs_loop (args_plain "multi" 4) env_improving 1 init_st) in
  let s' := snd (epoch_body (args_plain "multi" 4) env_improving 1 s) in
  let v := dev_out env_improving 1 in
  best_val_loss s = best_so_far env_improving 1 /\
  fle (best_val_loss s') (best_val_loss s) = true /\
  saves (trace s')
  = saves (trace s)
    ++ (if flt (v_loss v) (best_val_loss s)
        then [(1%nat, BestModel); (1%nat, TrainingArgs)] else []).
Proof.
  apply (checkpoint_policy (args_plain "multi" 4) env_improving 1);
    vm_compute; reflexivity.
Defined.

Lemma unknown_selector_is_fatal_witness :
  train (args_plain "ternary" 3) env_improving init_st
  = (Raise (UnboundLocalError "label_list"), init_st) /\
  trace (snd (train (args_plain "ternary" 3) env_improving init_st)) = [].
Proof.
  apply (unknown_selector_is_fatal (args_plain "ternary" 3) env_improving);
    discriminate.
Defined.

Lemma no_improvement_no_result_row_witness :
  exists x s,
    train (args_plain "binary" 2) env_stuck init_st = (Raise x, s) /\
    best_val_acc s = None /\
    result_rows (trace s) = [] /\
    (label_list_of (num_label (args_plain "binary" 2)) <> None ->
     grad_accu (args_plain "binary" 2) <> 0 ->
     logging_step (args_plain "binary" 2) <> 0 ->
     (0 < epochs (args_plain "binary" 2) -> (0 < tr_len env_stuck)%nat) ->
     x = UnboundLocalError "best_val_acc").
Proof.
  apply (no_improvement_no_result_row (args_plain "binary" 2) env_stuck).
  intros [| [| e]] _; reflexivity.
Defined.

Ltac forall2_step :=
  match goal with
  | |- Forall2 _ (_ :: _) (_ :: _) => constructor
  | |- Forall2 _ [] [] => constructor
  | |- same_log _ _ => split; [exact eq_refl | cbn [fst snd]]
  end.

Ltac q_same :=
  change (inject_Z 2) with 2%Q; change (inject_Z 1) with 1%Q; field.

(** C3, evaluated on the code.  With accumulation factor 2, logging
    interval 1 and one epoch of 4 micro-batches of loss [L]: there are
    two optimizer updates, each after two backward passes, and every
    backward pass gets [L/2]; the periodic log fires four times, twice
    under global step 1 and twice under global step 2, and each entry
    reports the loss [L/2]. *)
Theorem accumulation_two_over_four (L a f : Q) (v : Val) :
  let tr := trace (snd (train args_g2 (env_const 4 L a f v) init_st)) in
  accumulations tr = [2; 2]%nat /\
  Forall2 Qeq (backward_losses tr) [L / 2; L / 2; L / 2; L / 2]%Q /\
  Forall2 same_log (logged tr)
          [(1, (L / 2)%Q); (1, (L / 2)%Q); (2, (L / 2)%Q); (2, (L / 2)%Q)].
Proof.
  cbv -[Qplus Qminus Qdiv Qmult inject_Z Qeq same_log flt].
  destruct (flt _ _).
  all: cbv -[Qplus Qminus Qdiv Qmult inject_Z Qeq same_log].
  all: split; [exact eq_refl | split].
  all: repeat forall2_step.
  all: q_same.
Qed.

(** C4, evaluated on the code.  With accumulation factor 2 and logging
    interval 1, one epoch of 2 micro-batches makes one optimizer update
    and the periodic log fires twice, both times under global step 1. *)
Theorem log_fires_per_micro_batch (mo : nat -> nat -> Micro) (dv : nat -> Val) :
  let env := {| tr_len := 2; model_out := mo; dev_out := dv |} in
  let tr := trace (snd (train args_g2 env init_st)) in
  optimizer_steps tr = 1%nat /\ map fst (logged tr) = [1; 1].
Proof.
  cbv -[Qplus Qminus Qdiv Qmult inject_Z flt].
  destruct (flt _ _); cbv -[Qplus Qminus Qdiv Qmult inject_Z];
    split; exact eq_refl.
Qed.

(** * Further properties of the collator *)

Section CollatorMore.

Variable self : ClassificationBatchFunction.

(** X1.  A sequence that fits the configured maximum with its two
    markers keeps all its tokens between the markers and is followed by
    pad ids up to the maximum; this also holds when it fits exactly,
    where [pad] takes the slicing branch. *)
Theorem row_of_fitting_sequence (t : list Z) :
  Py.len t + 2 <= max_len self ->
  pad self ([cls_idx self] ++ t ++ [sep_idx self])
  = [cls_idx self] ++ t ++ [sep_idx self]
    ++ replicate (Z.to_nat (max_len self - Py.len t - 2)) (pad_idx self).
Proof.
  intros Hfit.
  set (sample := [cls_idx self] ++ t ++ [sep_idx self]).
  assert (Hlen : Py.len sample = Py.len t + 2).
  { unfold sample, Py.len. rewrite !length_app. cbn [length]. lia. }
  destruct (Z.eq_dec (Py.len t + 2) (max_len self)) as [Heq | Hne].
  - rewrite pad_long by (unfold Py.len in *; lia).
    replace (length sample - Z.to_nat (max_len self))%nat with 0%nat
      by (unfold Py.len in *; lia).
    rewrite drop_0. replace (max_len self - Py.len t - 2) with 0 by lia.
    cbn [Z.to_nat replicate]. unfold sample. rewrite app_nil_r. reflexivity.
  - rewrite pad_short by lia. rewrite Hlen.
    replace (max_len self - (Py.len t + 2)) with (max_len self - Py.len t - 2)
      by lia.
    unfold sample. rewrite <- !app_assoc. reflexivity.
Qed.

(** X2.  A sequence that does not fit a positive configured maximum
    loses its boundary-start marker and its first tokens: the row is the
    last [max_len - 1] tokens followed by the boundary-end marker. *)
Theorem row_of_long_sequence (t : list Z) :
  0 < max_len self < Py.len t + 2 ->
  pad self ([cls_idx self] ++ t ++ [sep_idx self])
  = drop (length t + 1 - Z.to_nat (max_len self)) t ++ [sep_idx self].
Proof.
  intros [Hpos Hlong].
  set (sample := [cls_idx self] ++ t ++ [sep_idx self]).
  assert (Hlen : length sample = (length t + 2)%nat).
  { unfold sample. rewrite !length_app. cbn [length]. lia. }
  unfold Py.len in *.
  rewrite pad_long by (unfold Py.len; lia). rewrite Hlen.
  replace (length t + 2 - Z.to_nat (max_len self))%nat
    with (S (length t + 1 - Z.to_nat (max_len self))) by lia.
  unfold sample. cbn [app drop].
  rewrite drop_app_le by lia. reflexivity.
Qed.

(** X3.  With a configured maximum of zero or less [pad] never pads:
    it returns the sample without its first [-max_len] elements, the
    whole sample when the maximum is 0. *)
Theorem pad_nonpositive_max_len (sample : list Z) :
  max_len self <= 0 ->
  pad self sample = drop (Z.to_nat (- max_len self)) sample.
Proof.
  intros Hle. unfold pad, Py.slice_from, Py.len.
  destruct (Z.ltb_spec 0 (max_len self - Z.of_nat (length sample))); [lia | ].
  destruct (Z.ltb_spec (- max_len self) 0); [lia | ].
  destruct (Z_le_gt_dec (- max_len self) (Z.of_nat (length sample))).
  - rewrite Z.min_l by lia. reflexivity.
  - rewrite Z.min_r by lia. rewrite Nat2Z.id.
    rewrite !drop_ge; [reflexivity | lia | lia].
Qed.


(** X5.  Whenever the collator returns with a positive configured
    maximum, the token matrix and the mask have one row per sample, every
    row of both has exactly [max_len] entries, and the labels are the
    input labels in input order. *)
Theorem call_shapes (batch : list (list Z * Z)) (toks masks : list (list Z))
  (labels : list Z) :
  0 < max_len self ->
  call self batch = Ok (toks, masks, labels) ->
  length toks = length batch /\
  length masks = length batch /\
  labels = map snd batch /\
  Forall (fun r => Py.len r = max_len self) toks /\
  Forall (fun r => Py.len r = max_len self) masks.
Proof.
  intros Hpos Hcall. pose proof (call_width self _ _ _ _ Hpos Hcall) as Hw.
  apply call_inv in Hcall as (-> & -> & ->).
  unfold rows_of in *. rewrite !length_map.
  repeat split; try assumption.
  apply List.Forall_forall. intros m Hm. apply in_map_iff in Hm as [r [<- Hr]].
  rewrite List.Forall_forall in Hw. unfold Py.len in *. rewrite length_map.
  apply Hw. exact Hr.
Qed.

(** X6.  With pad id 0, non-zero markers and no zero token, the mask of
    a sequence that fits is [len + 2] ones followed by zeros up to the
    configured maximum. *)
Theorem mask_of_fitting_sequence (t : list Z) :
  pad_idx self = 0 -> cls_idx self <> 0 -> sep_idx self <> 0 ->
  Forall (fun x => x <> 0) t ->
  Py.len t + 2 <= max_len self ->
  map (mask_entry self) (pad self ([cls_idx self] ++ t ++ [sep_idx self]))
  = replicate (length t + 2) 1
    ++ replicate (Z.to_nat (max_len self - Py.len t - 2)) 0.
Proof.
  intros Hp Hc Hs Ht Hfit. rewrite row_of_fitting_sequence by assumption.
  assert (Hone : forall x, x <> 0 -> mask_entry self x = 1).
  { intros x Hx. unfold mask_entry. rewrite Hp.
    destruct (Z.eqb_spec x 0); [contradiction | reflexivity]. }
  assert (Hones : map (mask_entry self) t = replicate (length t) 1).
  { clear Hfit. induction Ht as [| x t Hx Ht IH]; [reflexivity | ].
    cbn [map length replicate]. rewrite Hone by assumption. f_equal. exact IH. }
  assert (Hzeros : forall n, map (mask_entry self) (replicate n (pad_idx self))
                             = replicate n 0).
  { intros n. induction n as [| n IH]; [reflexivity | ].
    cbn [replicate map]. rewrite IH. f_equal.
    unfold mask_entry. rewrite Z.eqb_refl. exact Hp. }
  rewrite !map_app. cbn [map]. rewrite !Hone, Hones, Hzeros by assumption.
  replace (length t + 2)%nat with (1 + (length t + 1))%nat by lia.
  rewrite !replicate_add. cbn [replicate]. rewrite <- !app_assoc. reflexivity.
Qed.

(** X7.  With pad id 1 every entry of the returned mask is 1, at the
    padding as well as at the tokens. *)
Theorem mask_all_ones_when_pad_is_one (batch : list (list Z * Z))
  (toks masks : list (list Z)) (labels : list Z) :
  pad_idx self = 1 ->
  call self batch = Ok (toks, masks, labels) ->
  Forall (Forall (fun m => m = 1)) masks.
Proof.
  intros Hp Hcall. apply call_inv in Hcall as (_ & -> & _).
  apply List.Forall_forall. intros m Hm. apply in_map_iff in Hm as [r [<- _]].
  apply List.Forall_forall. intros x Hx. apply in_map_iff in Hx as [y [<- _]].
  unfold mask_entry. rewrite Hp. destruct (y =? 1); reflexivity.
Qed.

(** X9.  [pad] called on a list of the caller: when the list is shorter
    than the configured maximum the list itself is extended and its own
    reference comes back; otherwise the list is left as it is and the
    reference of a new list comes back.  Either way the returned list is
    [pad] of the old contents. *)
Theorem pad_obj_on_callers_list (h : list (list Z)) (p : nat) (l : list Z) :
  h !! p = Some l ->
  exists q h',
    pad_obj self p h = (Ok q, h') /\
    h' !! q = Some (pad self l) /\
    (Py.len l < max_len self -> q = p /\ h' = <[p := pad self l]> h) /\
    (max_len self <= Py.len l -> q = length h /\ h' = h ++ [pad self l]).
Proof.
  intros Hp. unfold pad_obj, Store.bind, Store.read, Store.extend, Store.alloc,
    Store.ret. rewrite Hp. change (default [] (Some l)) with l. unfold pad.
  pose proof (lookup_lt_Some _ _ _ Hp) as Hlt.
  destruct (Z.ltb_spec 0 (max_len self - Py.len l)) as [Hd | Hd]; cbv beta.
  - rewrite Hp. change (default [] (Some l)) with l.
    eexists; eexists. split; [reflexivity | ].
    split; [apply list_lookup_insert_eq; exact Hlt | ].
    split; [intros _; split; reflexivity | ].
    intros Hge. lia.
  - eexists; eexists. split; [reflexivity | ].
    split; [rewrite lookup_app_r by lia; rewrite Nat.sub_diag; reflexivity | ].
    split; [intros Hl; lia | ].
    intros _. split; reflexivity.
Qed.

End CollatorMore.

(** X8.  A collator built without marker ids uses the pad id for both
    markers: the row of a sequence that fits starts with the pad id, and
    the mask treats both marker positions like padding. *)
Theorem default_markers_are_masked (m p : Z) (t : list Z) :
  Py.len t + 2 <= m ->
  let self := init m p None None in
  let row := pad self ([cls_idx self] ++ t ++ [sep_idx self]) in
  row = [p] ++ t ++ replicate (Z.to_nat (m - Py.len t - 1)) p /\
  map (mask_entry self) row
  = [p] ++ map (mask_entry self) t ++ replicate (Z.to_nat (m - Py.len t - 1)) p.
Proof.
  intros Hfit self row. subst row.
  rewrite row_of_fitting_sequence by exact Hfit.
  change (cls_idx self) with p. change (sep_idx self) with p.
  change (pad_idx self) with p. change (max_len self) with m.
  assert (Hrep : [p] ++ replicate (Z.to_nat (m - Py.len t - 2)) p
                 = replicate (Z.to_nat (m - Py.len t - 1)) p).
  { replace (Z.to_nat (m - Py.len t - 1)) with (S (Z.to_nat (m - Py.len t - 2)))
      by (unfold Py.len in *; lia).
    reflexivity. }
  rewrite Hrep. split; [reflexivity | ].
  rewrite !map_app. cbn [map app]. f_equal.
  - unfold mask_entry. change (pad_idx self) with p. rewrite Z.eqb_refl.
    reflexivity.
  - f_equal. generalize (Z.to_nat (m - Py.len t - 1)). intros n.
    induction n as [| n IH]; [reflexivity | ].
    cbn [replicate map]. rewrite IH. f_equal.
    unfold mask_entry. change (pad_idx self) with p. rewrite Z.eqb_refl.
    reflexivity.
Qed.

Lemma row_of_fitting_sequence_witness :
  pad bert_collator ([cls_idx bert_collator] ++ [5; 6; 7] ++ [sep_idx bert_collator])
  = [cls_idx bert_collator] ++ [5; 6; 7] ++ [sep_idx bert_collator]
    ++ replicate (Z.to_nat (max_len bert_collator - Py.len [5; 6; 7] - 2))
                 (pad_idx bert_collator).
Proof. apply (row_of_fitting_sequence bert_collator [5; 6; 7]). vm_compute. discriminate. Defined.

Lemma row_of_long_sequence_witness :
  pad bert_collator ([cls_idx bert_collator] ++ [5; 6; 7; 8; 9; 10]
                       ++ [sep_idx bert_collator])
  = drop (length [5; 6; 7; 8; 9; 10] + 1 - Z.to_nat (max_len bert_collator))
         [5; 6; 7; 8; 9; 10]
    ++ [sep_idx bert_collator].
Proof.
  apply (row_of_long_sequence bert_collator [5; 6; 7; 8; 9; 10]).
  split; reflexivity.
Defined.

Lemma pad_nonpositive_max_len_witness :
  pad unbounded_collator [1; 5; 6; 2]
  = drop (Z.to_nat (- max_len unbounded_collator)) [1; 5; 6; 2].
Proof.
  apply (pad_nonpositive_max_len unbounded_collator [1; 5; 6; 2]).
  vm_compute. discriminate.
Defined.


Lemma call_shapes_witness :
  length [[1; 5; 6; 7; 2; 0]; [1; 8; 9; 2; 0; 0]] = length scenario_batch /\
  length [[1; 1; 1; 1; 1; 0]; [1; 1; 1; 1; 0; 0]] = length scenario_batch /\
  [0; 1] = map snd scenario_batch /\
  Forall (fun r => Py.len r = max_len bert_collator)
         [[1; 5; 6; 7; 2; 0]; [1; 8; 9; 2; 0; 0]] /\
  Forall (fun r => Py.len r = max_len bert_collator)
         [[1; 1; 1; 1; 1; 0]; [1; 1; 1; 1; 0; 0]].
Proof.
  apply (call_shapes bert_collator scenario_batch
           [[1; 5; 6; 7; 2; 0]; [1; 8; 9; 2; 0; 0]]
           [[1; 1; 1; 1; 1; 0]; [1; 1; 1; 1; 0; 0]] [0; 1]).
  - reflexivity.
  - reflexivity.
Defined.

Lemma mask_of_fitting_sequence_witness :
  map (mask_entry bert_collator)
      (pad bert_collator ([cls_idx bert_collator] ++ [8; 9]
                            ++ [sep_idx bert_collator]))
  = replicate (length [8; 9] + 2) 1
    ++ replicate (Z.to_nat (max_len bert_collator - Py.len [8; 9] - 2)) 0.
Proof.
  apply (mask_of_fitting_sequence bert_collator [8; 9]).
  - reflexivity.
  - vm_compute. discriminate.
  - vm_compute. discriminate.
  - repeat constructor; lia.
  - vm_compute. discriminate.
Defined.

Lemma mask_all_ones_when_pad_is_one_witness :
  Forall (Forall (fun m => m = 1)) [[1; 1; 1; 1; 1; 1]].
Proof.
  apply (mask_all_ones_when_pad_is_one pad1_collator [([5; 6], 0)]
           [[2; 5; 6; 3; 1; 1]] [[1; 1; 1; 1; 1; 1]] [0]).
  - reflexivity.
  - reflexivity.
Defined.

Lemma default_markers_are_masked_witness :
  let self := init 6 0 None None in
  let row := pad self ([cls_idx self] ++ [5; 6; 7] ++ [sep_idx self]) in
  row = [0] ++ [5; 6; 7] ++ replicate (Z.to_nat (6 - Py.len [5; 6; 7] - 1)) 0 /\
  map (mask_entry self) row
  = [0] ++ map (mask_entry self) [5; 6; 7]
    ++ replicate (Z.to_nat (6 - Py.len [5; 6; 7] - 1)) 0.
Proof.
  apply (default_markers_are_masked 6 0 [5; 6; 7]). vm_compute. discriminate.
Defined.

Lemma pad_obj_on_callers_list_witness :
  exists q h',
    pad_obj bert_collator 1%nat scenario_heap = (Ok q, h') /\
    h' !! q = Some (pad bert_collator [8; 9]) /\
    (Py.len [8; 9] < max_len bert_collator ->
     q = 1%nat /\ h' = <[1%nat := pad bert_collator [8; 9]]> scenario_heap) /\
    (max_len bert_collator <= Py.len [8; 9] ->
     q = length scenario_heap /\ h' = scenario_heap ++ [pad bert_collator [8; 9]]).
Proof.
  apply (pad_obj_on_callers_list bert_collator scenario_heap 1%nat [8; 9]).
  reflexivity.
Defined.

(** * Further properties of the training loop *)


Lemma div_succ (n g : Z) :
  0 <= n -> 0 < g ->
  (n + 1) / g = n / g + (if (n + 1) mod g =? 0 then 1 else 0).
Proof.
  intros Hn Hg.
  pose proof (Z.div_mod n g ltac:(lia)) as Hdm.
  pose proof (Z.mod_pos_bound n g Hg) as Hb.
  pose proof (Z.div_mod (n + 1) g ltac:(lia)) as Hdm1.
  pose proof (Z.mod_pos_bound (n + 1) g Hg) as Hb1.
  destruct (Z.eqb_spec ((n + 1) mod g) 0) as [H0 | H0]; nia.
Qed.

Section TrainMore.

Variable args : Args.
Variable env : Env.

Lemma micro_step_effect (epoch i : nat) (s : St) :
  grad_accu args <> 0 -> logging_step args <> 0 ->
  exists s' evs,
    micro_step args env epoch i s = (Ok tt, s') /\
    trace s' = trace s ++ evs /\
    forallb inner_event evs = true /\
    global_step s' = global_step s + closes_window args i /\
    optimizer_steps evs = Z.to_nat (closes_window args i) /\
    backward_losses evs = [scaled_loss args env epoch i] /\
    train_loss s' = (train_loss s + scaled_loss args env epoch i)%Q /\
    step s' = Some (Z.of_nat i).
Proof.
  intros Hg Hl. apply Z.eqb_neq in Hg, Hl.
  unfold micro_step, py_mod, closes_window, scaled_loss. rewrite Hg, Hl.
  repeat run_step.
  destruct (_ mod logging_step args =? 0); repeat run_step;
    (destruct (_ mod grad_accu args =? 0); repeat run_step;
     eexists; eexists; (split; [reflexivity | ]); st_simpl;
     rewrite <- ?app_assoc; (split; [reflexivity | ]);
     (split; [reflexivity | ]); (split; [lia | ]);
     (split; [reflexivity | ]); (split; [reflexivity | ]);
     split; reflexivity).
Qed.

Lemma windows_closed_seq (n : nat) :
  0 < grad_accu args ->
  windows_closed args (seq 0 n) = Z.of_nat n / grad_accu args.
Proof.
  intros Hg. induction n as [| n IH]; [reflexivity | ].
  unfold windows_closed in *. rewrite seq_S, map_app, fold_right_app.
  cbn [map fold_right Nat.add].
  assert (Hshift : forall (l : list Z) (a : Z),
             fold_right Z.add a l = fold_right Z.add 0 l + a).
  { induction l as [| x l IHl]; intros a; cbn [fold_right]; [lia | ].
    rewrite IHl. lia. }
  rewrite Hshift, IH. unfold closes_window.
  replace (Z.of_nat (S n)) with (Z.of_nat n + 1) by lia.
  rewrite (div_succ (Z.of_nat n)) by lia. lia.
Qed.

Lemma micro_loop_effect (epoch : nat) (l : list nat) : forall s,
  grad_accu args <> 0 -> logging_step args <> 0 ->
  exists s' evs,
    for_each l (micro_step args env epoch) s = (Ok tt, s') /\
    trace s' = trace s ++ evs /\
    forallb inner_event evs = true /\
    global_step s' = global_step s + windows_closed args l /\
    optimizer_steps evs = Z.to_nat (windows_closed args l) /\
    backward_losses evs = map (scaled_loss args env epoch) l /\
    (train_loss s' == train_loss s
                      + Qsum (map (scaled_loss args env epoch) l))%Q /\
    step s' = match last l with
              | Some i => Some (Z.of_nat i)
              | None => step s
              end.
Proof.
  induction l as [| i l IH]; intros s Hg Hl.
  - exists s, []. rewrite app_nil_r. cbn. 
    split; [reflexivity | ]. split; [reflexivity | ]. split; [reflexivity | ].
    split; [lia | ]. split; [reflexivity | ]. split; [reflexivity | ].
    split; [ring | reflexivity].
  - destruct (micro_step_effect epoch i s Hg Hl)
      as (s1 & e1 & Hrun & Ht1 & Hin1 & Hg1 & Ho1 & Hb1 & Hs1 & Hst1).
    destruct (IH s1 Hg Hl)
      as (s2 & e2 & Hrest & Ht2 & Hin2 & Hg2 & Ho2 & Hb2 & Hs2 & Hst2).
    exists s2, (e1 ++ e2). cbn [for_each]. unfold bind. rewrite Hrun.
    split; [exact Hrest | ].
    split; [rewrite Ht2, Ht1, app_assoc; reflexivity | ].
    split; [rewrite forallb_app, Hin1, Hin2; reflexivity | ].
    assert (Hc : 0 <= closes_window args i).
    { unfold closes_window. destruct (_ =? 0); lia. }
    assert (Hw : 0 <= windows_closed args l).
    { clear. unfold windows_closed. induction l as [| j l IHl]; cbn; [lia | ].
      unfold closes_window at 1. destruct (_ =? 0); lia. }
    unfold windows_closed in *. cbn [map fold_right].
    split; [lia | ].
    split.
    { unfold optimizer_steps in *.
      rewrite List.filter_app, length_app, Ho1, Ho2. lia. }
    split.
    { unfold backward_losses in *. rewrite omap_app, Hb1, Hb2. reflexivity. }
    split.
    { rewrite Hs2, Hs1. unfold Qsum. cbn [fold_right]. ring. }
    rewrite Hst2. destruct l as [| j l']; [cbn; assumption | ].
    cbn [last]. destruct (last (j :: l')) eqn:E; [reflexivity | ].
    apply last_None in E. discriminate.
Qed.


Lemma last_seq (n : nat) : last (seq 0 (S n)) = Some n.
Proof. rewrite seq_S. apply last_snoc. Qed.

Lemma epoch_body_effect (k : nat) (s : St) :
  grad_accu args <> 0 -> logging_step args <> 0 ->
  label_list_of (num_label args) <> None ->
  (0 < tr_len env)%nat ->
  let w := windows_closed args (seq 0 (tr_len env)) in
  let losses := map (scaled_loss args env k) (seq 0 (tr_len env)) in
  exists s' evs x,
    epoch_body args env k s = (Ok tt, s') /\
    trace s' = trace s ++ evs /\
    global_step s' = global_step s + w /\
    optimizer_steps evs = Z.to_nat w /\
    backward_losses evs = losses /\
    epoch_logs evs = [(global_step s + w + 1, x)] /\
    (x == Qsum losses / inject_Z (Z.of_nat (tr_len env)))%Q /\
    train_loss s' = 0%Q /\ train_acc s' = 0%Q.
Proof.
  intros Hg Hl Hlab Hlen w losses. unfold epoch_body, evaluate.
  do 2 rewrite run_modify. cbv beta.
  set (s0 := set_logging 0 0 0 (set_train 0 0 0 s)).
  destruct (micro_loop_effect k (seq 0 (tr_len env)) s0 Hg Hl)
    as (s1 & e1 & Hrun & Ht1 & Hin1 & Hg1 & Ho1 & Hb1 & Hs1 & Hst1).
  fold w in Hg1, Ho1. fold losses in Hb1, Hs1.
  change (trace s0) with (trace s) in Ht1.
  change (global_step s0) with (global_step s) in Hg1.
  change (train_loss s0) with 0%Q in Hs1.
  destruct (tr_len env) as [| n] eqn:Hn; [lia | ].
  rewrite last_seq in Hst1.
  unfold bind at 1. rewrite Hrun. rewrite run_get. cbv beta. rewrite Hst1.
  repeat run_step.
  destruct (label_list_of (num_label args)); [ | congruence]. repeat run_step.
  assert (Hmean : (train_loss s1 / inject_Z (Z.of_nat n + 1)
                   == Qsum losses / inject_Z (Z.of_nat (S n)))%Q).
  { rewrite Hs1. replace (Z.of_nat n + 1) with (Z.of_nat (S n)) by lia.
    rewrite Qplus_0_l. reflexivity. }
  destruct (inner_events_saves e1 Hin1) as [_ _].
  assert (Hel : epoch_logs e1 = []).
  { clear - Hin1. induction e1 as [| e l IH]; [reflexivity | ].
    cbn [forallb] in Hin1. apply andb_true_iff in Hin1 as [He Hl].
    unfold epoch_logs in *. cbn [omap list_omap].
    destruct e; cbn in He; try discriminate; cbn; auto. }
  destruct (flt _ _); repeat run_step;
    eexists; eexists; eexists; (split; [reflexivity | ]); st_simpl;
    rewrite Ht1, <- ?app_assoc; (split; [reflexivity | ]);
    (split; [exact Hg1 | ]);
    (split; [unfold optimizer_steps in *; rewrite List.filter_app, length_app, Ho1;
             cbn [List.filter is_optimizer_step length app]; lia | ]);
    (split; [unfold backward_losses in *; rewrite omap_app, Hb1;
             apply app_nil_r | ]);
    (split; [unfold epoch_logs in *; rewrite omap_app, Hel;
             cbn [omap list_omap app]; rewrite Hg1; reflexivity | ]);
    (split; [exact Hmean | ]); split; reflexivity.
Qed.


(** *** Errors of the configuration *)

(** X10.  With a supported selector and an accumulation factor of 0,
    [train] raises [ZeroDivisionError] while computing the number of
    steps of the schedule (line 128), before any epoch starts. *)
Theorem zero_accumulation_factor_is_fatal :
  label_list_of (num_label args) <> None ->
  grad_accu args = 0 ->
  train args env init_st = (Raise ZeroDivisionError, init_st).
Proof.
  intros Hlab Hg. unfold train, py_floordiv.
  destruct (label_list_of (num_label args)); [ | congruence].
  rewrite run_local_some, Hg. reflexivity.
Qed.

Lemma micro_step_zero_logging (epoch i : nat) (s : St) :
  logging_step args = 0 ->
  micro_step args env epoch i s
  = (Raise ZeroDivisionError,
     set_train (train_loss s + scaled_loss args env epoch i)%Q
               (train_acc s
                + (if 1 <? grad_accu args
                   then m_acc (model_out env epoch i) / inject_Z (grad_accu args)
                   else m_acc (model_out env epoch i)))%Q
               (train_f1 s
                + (if 1 <? grad_accu args
                   then m_f1 (model_out env epoch i) / inject_Z (grad_accu args)
                   else m_f1 (model_out env epoch i)))%Q
       (add_event (Backward (fp16 args) (scaled_loss args env epoch i))
          (add_event (Forward epoch i) (set_step (Z.of_nat i) s)))).
Proof.
  intros Hl. unfold micro_step, py_mod, scaled_loss. rewrite Hl.
  cbn [Z.eqb]. repeat run_step. reflexivity.
Qed.

(** X11.  With a logging interval of 0, [train] raises
    [ZeroDivisionError] in the first micro-batch of the first epoch: one
    forward and one backward pass have run, no optimizer update, no
    validation and no checkpoint. *)
Theorem zero_logging_step_is_fatal :
  label_list_of (num_label args) <> None ->
  grad_accu args <> 0 ->
  logging_step args = 0 ->
  0 < epochs args -> (0 < tr_len env)%nat ->
  exists s,
    train args env init_st = (Raise ZeroDivisionError, s) /\
    trace s = [Forward 0 0; Backward (fp16 args) (scaled_loss args env 0 0)].
Proof.
  intros Hlab Hg Hl He Hn. unfold train, py_floordiv.
  destruct (label_list_of (num_label args)); [ | congruence].
  rewrite run_local_some. apply Z.eqb_neq in Hg. rewrite Hg.
  cbn [res_bind]. rewrite run_lift_ok. unfold bind at 1.
  unfold epochs_loop.
  destruct (Z.to_nat (epochs args)) as [| m] eqn:Hm; [lia | ].
  cbn [seq for_each]. unfold bind at 1. unfold epoch_body.
  do 2 rewrite run_modify. cbv beta. unfold bind at 1.
  destruct (tr_len env) as [| n]; [lia | ].
  cbn [seq for_each]. unfold bind at 1.
  rewrite micro_step_zero_logging by exact Hl.
  eexists. split; reflexivity.
Qed.

(** X12.  With an empty training loader and at least one epoch, [train]
    raises on the unbound [step] of line 235, before the first validation
    pass; nothing has been recorded. *)
Theorem empty_loader_is_fatal :
  label_list_of (num_label args) <> None ->
  grad_accu args <> 0 ->
  0 < epochs args -> tr_len env = 0%nat ->
  exists s,
    train args env init_st = (Raise (UnboundLocalError "step"), s) /\
    trace s = [].
Proof.
  intros Hlab Hg He Hn. unfold train, py_floordiv.
  destruct (label_list_of (num_label args)); [ | congruence].
  rewrite run_local_some. apply Z.eqb_neq in Hg. rewrite Hg.
  cbn [res_bind]. rewrite run_lift_ok. unfold bind at 1.
  unfold epochs_loop.
  destruct (Z.to_nat (epochs args)) as [| m] eqn:Hm; [lia | ].
  cbn [seq for_each]. unfold bind at 1. unfold epoch_body.
  do 2 rewrite run_modify. cbv beta. rewrite Hn. cbn [seq for_each].
  rewrite run_ret, run_get. cbv beta. st_simpl.
  change (step init_st) with (@None Z). rewrite run_local_none.
  eexists. split; reflexivity.
Qed.


(** *** Epochs *)

Lemma epoch_body_resets (k : nat) (s s' : St) :
  epoch_body args env k s = (Ok tt, s') ->
  train_loss s' = 0%Q /\ train_acc s' = 0%Q.
Proof.
  unfold epoch_body, evaluate. do 2 rewrite run_modify. cbv beta.
  unfold bind at 1.
  destruct (for_each _ _ _) as [[[] | e] s1]; [ | discriminate].
  rewrite run_get. cbv beta.
  destruct (step s1); [ | discriminate]. repeat run_step.
  destruct (label_list_of (num_label args)); [ | discriminate]. repeat run_step.
  destruct (flt _ _); repeat run_step; intros H; inversion H; subst;
    split; reflexivity.
Qed.

Lemma epochs_loop_no_rows (k : nat) : forall r s,
  epochs_loop args env k init_st = (r, s) -> result_rows (trace s) = [].
Proof.
  induction k as [| k IH]; intros r s Hrun.
  - inversion Hrun; subst. reflexivity.
  - rewrite epochs_loop_S in Hrun. unfold bind in Hrun.
    destruct (epochs_loop args env k init_st) as [r1 s1] eqn:Hk.
    pose proof (IH r1 s1 eq_refl) as Hr.
    destruct r1 as [[] | e]; [ | inversion Hrun; subst; exact Hr].
    pose proof (epoch_body_spec args env k s1) as (evs & Ht & Hrr & _).
    rewrite Hrun in Ht. cbn [snd] in Ht. rewrite Ht.
    unfold result_rows in *. rewrite omap_app, Hr, Hrr. reflexivity.
Qed.

Lemma epochs_loop_resets (k : nat) : forall s,
  epochs_loop args env k init_st = (Ok tt, s) ->
  train_loss s = 0%Q /\ train_acc s = 0%Q.
Proof.
  destruct k as [| k]; intros s Hrun.
  - inversion Hrun; subst. split; reflexivity.
  - rewrite epochs_loop_S in Hrun. unfold bind in Hrun.
    destruct (epochs_loop args env k init_st) as [[[] | e] s1];
      [ | discriminate].
    eapply epoch_body_resets; eauto.
Qed.

(** the accuracy that is kept is the one of the epoch whose loss is kept *)
Lemma epochs_loop_best_epoch (k : nat) : forall s,
  epochs_loop args env k init_st = (Ok tt, s) ->
  (best_val_acc s = None /\ improves env k = false) \/
  (exists e, (e < k)%nat /\
             best_val_loss s = v_loss (dev_out env e) /\
             best_val_acc s = Some (v_acc (dev_out env e)) /\
             improves env k = true).
Proof.
  induction k as [| k IH]; intros s Hrun.
  - inversion Hrun; subst. left. split; reflexivity.
  - rewrite epochs_loop_S in Hrun. unfold bind in Hrun.
    destruct (epochs_loop args env k init_st) as [[[] | e] s1] eqn:Hk;
      [ | discriminate].
    pose proof (epoch_body_spec args env k s1) as (evs & _ & _ & Hspec).
    rewrite Hrun in Hspec. cbn [fst snd] in Hspec.
    assert (Himp : improves env (S k)
                   = improves env k || flt (v_loss (dev_out env k)) sentinel).
    { unfold improves. rewrite seq_S, existsb_app. cbn [existsb Nat.add].
      rewrite orb_false_r. reflexivity. }
    destruct (flt (v_loss (dev_out env k)) (best_val_loss s1)) eqn:Hlt.
    + destruct Hspec as (Hl & Ha & _). right. exists k.
      split; [lia | ]. split; [exact Hl | ]. split; [exact Ha | ].
      rewrite Himp.
      destruct (IH s1 eq_refl) as [[Hnone Hno] | (e & He & _ & _ & Hyes)].
      * destruct (epochs_loop_best args env k s1 Hk) as [Hbest _].
        assert (Hsen : best_val_loss s1 = sentinel).
        { rewrite Hbest. clear - Hno. unfold improves, best_so_far in *.
          induction k as [| k IHk]; [reflexivity | ].
          rewrite seq_S, existsb_app in Hno. cbn [existsb Nat.add] in Hno.
          rewrite orb_false_r in Hno. apply orb_false_iff in Hno as [Hk Hlast].
          rewrite seq_S, fold_left_app. cbn [fold_left Nat.add].
          rewrite (IHk Hk), Hlast. reflexivity. }
        rewrite Hsen in Hlt. rewrite Hlt. apply orb_true_r.
      * rewrite Hyes. reflexivity.
    + destruct Hspec as (Hl & Ha & _). rewrite Hl, Ha, Himp.
      destruct (IH s1 eq_refl) as [[Hnone Hno] | (e & He & Hle & Hae & Hyes)].
      * left. split; [exact Hnone | ]. rewrite Hno. cbn [orb].
        destruct (epochs_loop_best args env k s1 Hk) as [Hbest _].
        assert (Hsen : best_val_loss s1 = sentinel).
        { rewrite Hbest. clear - Hno. unfold improves, best_so_far in *.
          induction k as [| k IHk]; [reflexivity | ].
          rewrite seq_S, existsb_app in Hno. cbn [existsb Nat.add] in Hno.
          rewrite orb_false_r in Hno. apply orb_false_iff in Hno as [Hk Hlast].
          rewrite seq_S, fold_left_app. cbn [fold_left Nat.add].
          rewrite (IHk Hk), Hlast. reflexivity. }
        rewrite <- Hsen. exact Hlt.
      * right. exists e. split; [lia | ]. split; [exact Hle | ].
        split; [exact Hae | ]. rewrite Hyes. reflexivity.
Qed.


Lemma epochs_loop_effect (k : nat) :
  grad_accu args <> 0 -> logging_step args <> 0 ->
  label_list_of (num_label args) <> None ->
  (0 < tr_len env)%nat ->
  let w := windows_closed args (seq 0 (tr_len env)) in
  exists s,
    epochs_loop args env k init_st = (Ok tt, s) /\
    global_step s = Z.of_nat k * w /\
    optimizer_steps (trace s) = (k * Z.to_nat w)%nat /\
    length (backward_losses (trace s)) = (k * tr_len env)%nat /\
    length (epoch_logs (trace s)) = k.
Proof.
  intros Hg Hl Hlab Hn w. induction k as [| k (s & Hk & Hgs & Hos & Hbl & Hel)].
  - exists init_st. repeat split.
  - destruct (epoch_body_effect k s Hg Hl Hlab Hn)
      as (s' & evs & x & Hrun & Ht & Hg' & Ho' & Hb' & He' & _).
    fold w in Hg', Ho', He'.
    exists s'. rewrite epochs_loop_S. unfold bind. rewrite Hk.
    split; [exact Hrun | ]. split; [lia | ]. rewrite Ht.
    unfold optimizer_steps, backward_losses, epoch_logs in *.
    rewrite List.filter_app, !omap_app, !length_app, Hos, Ho', Hbl, Hb', Hel, He'.
    rewrite length_map, length_seq. cbn [length]. lia.
Qed.



(** X13.  Without accumulation (factor 1) the micro-batches of an epoch
    are as many optimizer updates, and the periodic log fires once at
    each global step that is a multiple of the logging interval and at no
    other. *)
Theorem log_schedule_without_accumulation (epoch : nat) (s : St) :
  grad_accu args = 1 -> logging_step args <> 0 ->
  exists s' evs,
    for_each (seq 0 (tr_len env)) (micro_step args env epoch) s = (Ok tt, s') /\
    trace s' = trace s ++ evs /\
    global_step s' = global_step s + Z.of_nat (tr_len env) /\
    optimizer_steps evs = tr_len env /\
    map fst (logged evs)
    = List.filter (fun g => g mod logging_step args =? 0)
                  (steps_after (global_step s) (tr_len env)).
Proof.
  intros Hg Hl.
  destruct (logs_without_accumulation args env epoch (seq 0 (tr_len env)) s Hg Hl)
    as (s' & evs & Hrun & Ht & Hgs & Hlog & Ho).
  rewrite length_seq in *. exists s', evs. auto.
Qed.



(** X16.  With a positive accumulation factor and a non-negative number
    of epochs, the run ends with the global step equal to the number of
    steps given to the schedule, [len(tr_loader) // G * epochs]; that is
    also the number of optimizer updates, while every micro-batch of
    every epoch had its backward pass. *)
Theorem global_step_reaches_t_total :
  label_list_of (num_label args) <> None ->
  0 < grad_accu args -> logging_step args <> 0 ->
  (0 < tr_len env)%nat -> 0 <= epochs args ->
  let t_total := Z.of_nat (tr_len env) / grad_accu args * epochs args in
  exists r s,
    train args env init_st = (r, s) /\
    global_step s = t_total /\
    optimizer_steps (trace s) = Z.to_nat t_total /\
    length (backward_losses (trace s))
    = (Z.to_nat (epochs args) * tr_len env)%nat.
Proof.
  intros Hlab Hg Hl Hn He t_total.
  destruct (epochs_loop_effect (Z.to_nat (epochs args)) ltac:(lia) Hl Hlab Hn)
    as (s & Hrun & Hgs & Hos & Hbl & _).
  rewrite windows_closed_seq in Hgs, Hos by exact Hg.
  assert (Hq : 0 <= Z.of_nat (tr_len env) / grad_accu args).
  { apply Z.div_pos; lia. }
  assert (Hgs' : global_step s = t_total) by (subst t_total; nia).
  assert (Hos' : optimizer_steps (trace s) = Z.to_nat t_total).
  { subst t_total. rewrite Hos. rewrite Z2Nat.inj_mul by lia. lia. }
  unfold train, py_floordiv.
  destruct (label_list_of (num_label args)); [ | congruence].
  rewrite run_local_some.
  destruct (Z.eqb_spec (grad_accu args) 0); [lia | ].
  cbn [res_bind]. rewrite run_lift_ok. unfold bind at 1. rewrite Hrun.
  rewrite run_get. cbv beta.
  destruct (best_val_acc s) as [a | ].
  - repeat run_step. eexists; eexists. split; [reflexivity | ]. st_simpl.
    split; [exact Hgs' | ].
    unfold optimizer_steps, backward_losses in *.
    rewrite List.filter_app, omap_app, !length_app. cbn. lia.
  - rewrite run_local_none. eexists; eexists. split; [reflexivity | ]. auto.
Qed.

(** X17.  With a supported selector, non-zero accumulation factor and
    logging interval and a non-empty loader, [train] returns normally
    exactly when some epoch's validation loss is strictly below the
    sentinel 1e+9. *)
Theorem train_returns_iff_improvement :
  label_list_of (num_label args) <> None ->
  grad_accu args <> 0 -> logging_step args <> 0 ->
  (0 < tr_len env)%nat ->
  (exists out s, train args env init_st = (Ok out, s))
  <-> improves env (Z.to_nat (epochs args)) = true.
Proof.
  intros Hlab Hg Hl Hn.
  destruct (epochs_loop_ok args env (Z.to_nat (epochs args)) Hg Hl
              ltac:(auto) Hlab) as [s Hrun].
  assert (Htrain : train args env init_st
                   = bind get (fun s => bind (local "best_val_acc" (best_val_acc s))
                       (fun acc => bind (emit (ResultRow (best_val_loss s) acc))
                          (fun _ => ret (global_step s, train_loss s, train_acc s,
                                         best_val_loss s, acc)))) s).
  { unfold train, py_floordiv.
    destruct (label_list_of (num_label args)); [ | congruence].
    rewrite run_local_some.
    apply Z.eqb_neq in Hg. rewrite Hg.
    cbn [res_bind]. rewrite run_lift_ok. unfold bind at 1. rewrite Hrun.
    reflexivity. }
  rewrite Htrain, run_get. cbv beta.
  destruct (epochs_loop_best_epoch _ s Hrun)
    as [[Hnone Hno] | (e & _ & _ & Hsome & Hyes)].
  - rewrite Hnone, run_local_none, Hno. split.
    + intros (out & s' & H). discriminate.
    + discriminate.
  - rewrite Hsome, Hyes. repeat run_step. split; [reflexivity | ].
    intros _. eexists; eexists. reflexivity.
Qed.

(** X18.  Whenever [train] returns, the training loss and accuracy it
    returns are 0 (line 265 resets them at the end of every epoch), the
    best loss is the least validation loss seen in the run, the best
    accuracy is the accuracy of an epoch that has that loss, and the
    results table got exactly one row, holding that pair, as the last
    recorded action. *)
Theorem train_result (g : Z) (tl ta : Q) (bl : fl) (ba : Q) (s : St) :
  train args env init_st = (Ok (g, tl, ta, bl, ba), s) ->
  tl = 0%Q /\ ta = 0%Q /\
  g = global_step s /\
  bl = best_so_far env (Z.to_nat (epochs args)) /\
  (exists e, (e < Z.to_nat (epochs args))%nat /\
             bl = v_loss (dev_out env e) /\ ba = v_acc (dev_out env e)) /\
  result_rows (trace s) = [(bl, ba)] /\
  last (trace s) = Some (ResultRow bl ba).
Proof.
  unfold train, py_floordiv.
  destruct (label_list_of (num_label args)); [ | discriminate].
  rewrite run_local_some.
  destruct (grad_accu args =? 0); [discriminate | ].
  cbn [res_bind]. rewrite run_lift_ok. unfold bind at 1.
  destruct (epochs_loop args env (Z.to_nat (epochs args)) init_st)
    as [[[] | e] s1] eqn:Hrun; [ | discriminate].
  rewrite run_get. cbv beta.
  destruct (epochs_loop_resets _ s1 Hrun) as [Htl Hta].
  destruct (epochs_loop_best args env _ s1 Hrun) as [Hbest _].
  pose proof (epochs_loop_no_rows _ _ s1 Hrun) as Hrows.
  destruct (epochs_loop_best_epoch _ s1 Hrun)
    as [[Hnone _] | (e & He & Hle & Hae & _)].
  - rewrite Hnone. discriminate.
  - rewrite Hae. repeat run_step. intros H. inversion H; subst.
    st_simpl. split; [exact Htl | ]. split; [exact Hta | ].
    split; [reflexivity | ]. split; [exact Hbest | ].
    split; [exists e; auto | ].
    split.
    + unfold result_rows in *. rewrite omap_app, Hrows. reflexivity.
    + apply last_snoc.
Qed.

(** X19.  An epoch whose validation loss is NaN, or not below the best
    so far (a tie included), writes no checkpoint and leaves the best loss
    and the best accuracy as they were. *)
Theorem no_save_on_tie_or_nan (k : nat) (s s' : St) :
  epoch_body args env k s = (Ok tt, s') ->
  v_loss (dev_out env k) = NaN
  \/ fle (best_val_loss s) (v_loss (dev_out env k)) = true ->
  saves (trace s') = saves (trace s) /\
  best_val_loss s' = best_val_loss s /\
  best_val_acc s' = best_val_acc s.
Proof.
  intros Hrun Hcase.
  assert (Hlt : flt (v_loss (dev_out env k)) (best_val_loss s) = false).
  { destruct Hcase as [-> | Hle]; [reflexivity | ].
    destruct (v_loss (dev_out env k)), (best_val_loss s); cbn in *;
      try reflexivity; try discriminate.
    unfold Qlt_bool. rewrite Hle. reflexivity. }
  pose proof (epoch_body_spec args env k s) as (evs & Ht & _ & Hspec).
  rewrite Hrun in Ht, Hspec. cbn [fst snd] in Ht, Hspec. rewrite Hlt in Hspec.
  destruct Hspec as (Hl & Ha & Hs). split; [ | auto].
  rewrite Ht. unfold saves in *. rewrite omap_app, Hs. apply app_nil_r.
Qed.

End TrainMore.

Lemma zero_accumulation_factor_is_fatal_witness :
  train (args_of "multi" 3 0 100) env_improving init_st
  = (Raise ZeroDivisionError, init_st).
Proof.
  apply (zero_accumulation_factor_is_fatal (args_of "multi" 3 0 100) env_improving).
  - vm_compute. discriminate.
  - reflexivity.
Defined.

Lemma zero_logging_step_is_fatal_witness :
  exists s,
    train (args_of "multi" 3 2 0) env_improving init_st
    = (Raise ZeroDivisionError, s) /\
    trace s = [Forward 0 0;
               Backward (fp16 (args_of "multi" 3 2 0))
                        (scaled_loss (args_of "multi" 3 2 0) env_improving 0 0)].
Proof.
  apply (zero_logging_step_is_fatal (args_of "multi" 3 2 0) env_improving).
  - vm_compute. discriminate.
  - vm_compute. discriminate.
  - reflexivity.
  - reflexivity.
  - vm_compute. lia.
Defined.

Lemma empty_loader_is_fatal_witness :
  exists s,
    train (args_of "multi" 3 1 100) env_empty init_st
    = (Raise (UnboundLocalError "step"), s) /\
    trace s = [].
Proof.
  apply (empty_loader_is_fatal (args_of "multi" 3 1 100) env_empty).
  - vm_compute. discriminate.
  - vm_compute. discriminate.
  - reflexivity.
  - reflexivity.
Defined.

Lemma log_schedule_without_accumulation_witness :
  exists s' evs,
    for_each (seq 0 (tr_len env_five))
             (micro_step (args_of "multi" 3 1 2) env_five 0) init_st
    = (Ok tt, s') /\
    trace s' = trace init_st ++ evs /\
    global_step s' = global_step init_st + Z.of_nat (tr_len env_five) /\
    optimizer_steps evs = tr_len env_five /\
    map fst (logged evs)
    = List.filter (fun g => g mod logging_step (args_of "multi" 3 1 2) =? 0)
                  (steps_after (global_step init_st) (tr_len env_five)).
Proof.
  apply (log_schedule_without_accumulation (args_of "multi" 3 1 2) env_five 0
           init_st).
  - reflexivity.
  - vm_compute. discriminate.
Defined.



Lemma global_step_reaches_t_total_witness :
  let t_total := Z.of_nat (tr_len env_five) / grad_accu (args_of "multi" 3 2 100)
                 * epochs (args_of "multi" 3 2 100) in
  exists r s,
    train (args_of "multi" 3 2 100) env_five init_st = (r, s) /\
    global_step s = t_total /\
    optimizer_steps (trace s) = Z.to_nat t_total /\
    length (backward_losses (trace s))
    = (Z.to_nat (epochs (args_of "multi" 3 2 100)) * tr_len env_five)%nat.
Proof.
  apply (global_step_reaches_t_total (args_of "multi" 3 2 100) env_five).
  - vm_compute. discriminate.
  - reflexivity.
  - vm_compute. discriminate.
  - vm_compute. lia.
  - vm_compute. discriminate.
Defined.

Lemma train_returns_iff_improvement_witness :
  (exists out s, train (args_of "multi" 3 2 100) env_five init_st = (Ok out, s))
  <-> improves env_five (Z.to_nat (epochs (args_of "multi" 3 2 100))) = true.
Proof.
  apply (train_returns_iff_improvement (args_of "multi" 3 2 100) env_five).
  - vm_compute. discriminate.
  - vm_compute. discriminate.
  - vm_compute. discriminate.
  - vm_compute. lia.
Defined.

Lemma train_result_witness :
  let s := snd (train (args_plain "multi" 4) env_improving init_st) in
  0%Q = 0%Q /\ 0%Q = 0%Q /\
  4 = global_step s /\
  Fin 1 = best_so_far env_improving (Z.to_nat (epochs (args_plain "multi" 4))) /\
  (exists e, (e < Z.to_nat (epochs (args_plain "multi" 4)))%nat /\
             Fin 1 = v_loss (dev_out env_improving e) /\
             (1 # 2)%Q = v_acc (dev_out env_improving e)) /\
  result_rows (trace s) = [(Fin 1, (1 # 2)%Q)] /\
  last (trace s) = Some (ResultRow (Fin 1) (1 # 2)).
Proof.
  apply (train_result (args_plain "multi" 4) env_improving
           4 0%Q 0%Q (Fin 1) (1 # 2)%Q).
  vm_compute. reflexivity.
Defined.

Lemma no_save_on_tie_or_nan_witness :
  let a := args_plain "multi" 4 in
  let s := snd (epochs_loop a env_improving 2 init_st) in
  let s' := snd (epoch_body a env_improving 2 s) in
  saves (trace s') = saves (trace s) /\
  best_val_loss s' = best_val_loss s /\
  best_val_acc s' = best_val_acc s.
Proof.
  apply (no_save_on_tie_or_nan (args_plain "multi" 4) env_improving 2).
  - vm_compute. reflexivity.
  - left. reflexivity.
Defined.

(** * The renaming of the checkpoint's parameters *)


Lemma append_inj_l (p a b : string) : (p ++ a = p ++ b)%string -> a = b.
Proof.
  induction p as [| c p IH]; cbn; [auto | ].
  intros H. injection H as H. auto.
Qed.

Lemma eqb_append_l (p a b : string) :
  String.eqb (p ++ a) (p ++ b) = String.eqb a b.
Proof.
  induction p as [| c p IH]; cbn; [reflexivity | ].
  rewrite Ascii.eqb_refl. exact IH.
Qed.

Lemma dict_set_new {V} (d : list (string * V)) (k : string) (v : V) :
  ~ In k (Dict.keys d) -> Dict.set d k v = d ++ [(k, v)].
Proof.
  induction d as [| [k' v'] d IH]; cbn; [reflexivity | ].
  intros Hnot. destruct (String.eqb_spec k' k) as [-> | Hne]; [tauto | ].
  rewrite IH by tauto. reflexivity.
Qed.

Lemma of_pairs_distinct {V} (pairs : list (string * V)) :
  List.NoDup (map fst pairs) -> Dict.of_pairs pairs = pairs.
Proof.
  unfold Dict.of_pairs. intros Hnd.
  assert (Hgen : forall acc : list (string * V),
             List.NoDup (map fst (acc ++ pairs)) ->
             fold_left (fun d kv => Dict.set d (fst kv) (snd kv)) pairs acc
             = acc ++ pairs).
  { clear Hnd. induction pairs as [| [k v] pairs IH]; intros acc Hnd.
    - rewrite app_nil_r. reflexivity.
    - cbn [fold_left fst snd]. rewrite dict_set_new.
      + rewrite IH; rewrite <- app_assoc; [reflexivity | exact Hnd].
      + rewrite map_app in Hnd. cbn [map fst] in Hnd.
        apply List.NoDup_remove_2 in Hnd. unfold Dict.keys.
        intros Hin. apply Hnd. apply in_or_app. left. exact Hin. }
  apply (Hgen []). exact Hnd.
Qed.

Lemma zip_keys_values {V} (f : string -> string) (d : list (string * V)) :
  zip (map f (map fst d)) (map snd d) = map (fun kv => (f (fst kv), snd kv)) d.
Proof. induction d as [| [k v] d IH]; cbn; [reflexivity | ]. f_equal. exact IH. Qed.

(** X20.  For an 'skt' checkpoint every parameter is kept, in order and
    with its value, under its name prefixed by 'bert.': looking up
    'bert.' + k in the renamed dictionary gives what k gave before, and a
    name that does not start with 'bert.' is absent. *)
Theorem rename_pretrained_skt {V} (pretrained : list (string * V)) :
  List.NoDup (Dict.keys pretrained) ->
  let renamed := rename_pretrained "skt" pretrained in
  renamed = map (fun kv => (("bert." ++ fst kv)%string, snd kv)) pretrained /\
  (forall k, Dict.get renamed ("bert." ++ k)%string = Dict.get pretrained k) /\
  (forall k', (forall k, k' <> ("bert." ++ k)%string) -> Dict.get renamed k' = None).
Proof.
  intros Hnd renamed.
  assert (Heq : renamed
                = map (fun kv => (("bert." ++ fst kv)%string, snd kv)) pretrained).
  { subst renamed. unfold rename_pretrained. cbn [String.eqb Ascii.eqb Bool.eqb].
    unfold Dict.keys, Dict.values. rewrite zip_keys_values.
    apply of_pairs_distinct. rewrite map_map. cbn [fst].
    unfold Dict.keys in Hnd. clear -Hnd.
    induction pretrained as [| [k v] d IH]; cbn [map fst]; [constructor | ].
    inversion Hnd as [| ? ? Hnot Hrest]; subst. constructor; [ | auto].
    intros Hin. apply in_map_iff in Hin as [[k2 v2] [Hk Hin]].
    cbn [fst] in Hk. apply (append_inj_l "bert.") in Hk. subst k2.
    apply Hnot. apply in_map_iff. exists (k, v2). auto. }
  split; [exact Heq | ]. rewrite Heq. clear. split.
  - intros k. induction pretrained as [| [k1 v1] d IH];
      cbn [map Dict.get fst snd]; [reflexivity | ].
    rewrite eqb_append_l, IH. reflexivity.
  - intros k' Hk'. induction pretrained as [| [k1 v1] d IH];
      cbn [map Dict.get fst snd]; [reflexivity | ].
    destruct (String.eqb_spec ("bert." ++ k1)%string k') as [<- | Hne].
    + exfalso. apply (Hk' k1). reflexivity.
    + exact IH.
Qed.

(** * The validation pass *)


Lemma eval_loop_spec (batches : list DevBatch) : forall (i : nat) (st : EvalSt),
  let st' := eval_loop i batches st in
  total_y st' = total_y st ++ concat (map y_dev batches) /\
  total_y_hat st' = total_y_hat st ++ concat (map y_max batches) /\
  (val_loss st' == val_loss st + Qsum (map loss_item batches))%Q /\
  val_step st' = match batches with
                 | [] => val_step st
                 | _ => Some (Z.of_nat (i + length batches) - 1)
                 end.
Proof.
  induction batches as [| b bs IH]; intros i st; cbn [eval_loop].
  - cbn. rewrite !app_nil_r. repeat split. ring.
  - destruct (IH (S i) (eval_batch st i b)) as (Hy & Hh & Hl & Hs).
    cbn zeta. rewrite Hy, Hh. cbn [eval_batch total_y total_y_hat map concat].
    rewrite <- !app_assoc. split; [reflexivity | ]. split; [reflexivity | ].
    split.
    + rewrite Hl. cbn [eval_batch val_loss map]. unfold Qsum. cbn [fold_right]. ring.
    + rewrite Hs. destruct bs as [| b' bs']; cbn [eval_batch val_step length].
      * f_equal. lia.
      * f_equal. lia.
Qed.

Section EvaluateFacts.

Variable classification_report :
  list Z -> list Z -> list string -> list (string * report_entry).
Variable num_label : string.

Lemma evaluate_loader_unfold (batches : list DevBatch) (label_list : list string) :
  label_list_of num_label = Some label_list ->
  evaluate_loader classification_report num_label batches
  = let dev_cr := corpus_report classification_report batches label_list in
    ebind (item_at dev_cr (length label_list)) (fun it =>
    ebind (item_of dev_cr "macro avg") (fun macro =>
    ebind (f1_of macro) (fun val_macro_f1 =>
    ebind (f1_results (length label_list) 0 dev_cr) (fun _ =>
    match val_step (eval_loop 0 batches eval_init) with
    | None => ERaise (Py (UnboundLocalError "val_step"))
    | Some i =>
        EOk ((val_loss (eval_loop 0 batches eval_init) / inject_Z (i + 1))%Q,
             snd it, val_macro_f1)
    end)))).
Proof.
  intros Hlab. unfold evaluate_loader, corpus_report. rewrite Hlab.
  destruct (eval_loop_spec batches 0 eval_init) as (Hy & Hh & _ & _).
  cbn zeta in *. rewrite Hy, Hh. reflexivity.
Qed.

(** X21.  Whenever [evaluate] returns: the selector is a supported one
    and the loader is not empty; the value returned as the accuracy is
    the report entry at position [len(label_list)] and the macro-F1 is
    the F1 of the 'macro avg' row, both of one report over the
    concatenated labels and predictions of all batches; the loss is the
    sum of the batch losses divided by the number of batches, whatever
    the batch sizes. *)
Theorem evaluate_loader_result (batches : list DevBatch)
  (l : Q) (a : report_entry) (f : Q) :
  evaluate_loader classification_report num_label batches = EOk (l, a, f) ->
  exists label_list k,
    label_list_of num_label = Some label_list /\
    batches <> [] /\
    corpus_report classification_report batches label_list !! length label_list
    = Some (k, a) /\
    (exists p r s,
        Dict.get (corpus_report classification_report batches label_list)
                 "macro avg" = Some (Row p r f s)) /\
    (l == Qsum (map loss_item batches)
          / inject_Z (Z.of_nat (length batches)))%Q.
Proof.
  destruct (label_list_of num_label) as [ll | ] eqn:Hlab.
  2:{ unfold evaluate_loader. rewrite Hlab. discriminate. }
  rewrite (evaluate_loader_unfold batches ll Hlab). cbn zeta.
  set (dev_cr := corpus_report classification_report batches ll).
  unfold item_at, item_of.
  destruct (dev_cr !! length ll) as [[k v] | ] eqn:Hit; [ | discriminate].
  cbn [ebind snd].
  destruct (Dict.get dev_cr "macro avg") as [m | ] eqn:Hm; [ | discriminate].
  cbn [ebind]. destruct m as [q | p r f' s]; [discriminate | ]. cbn [f1_of ebind].
  destruct (f1_results _ _ _); [ | discriminate]. cbn [ebind].
  destruct (eval_loop_spec batches 0 eval_init) as (_ & _ & Hl & Hs).
  cbn zeta in *.
  destruct (val_step (eval_loop 0 batches eval_init)) as [i | ] eqn:Hvs;
    [ | discriminate].
  intros H. injection H as <- <- <-.
  assert (Hi : batches <> [] /\ i + 1 = Z.of_nat (length batches)).
  { destruct batches as [| b bs]; [discriminate | ].
    split; [discriminate | ]. cbn [length Nat.add] in *.
    injection Hs as Hs. lia. }
  destruct Hi as [Hne Hi].
  exists ll, k. split; [reflexivity | ]. split; [exact Hne | ].
  split; [exact Hit | ]. split; [eauto | ].
  rewrite Hl, Hi. cbn [eval_init val_loss]. rewrite Qplus_0_l. reflexivity.
Qed.

Lemma f1_results_stops_at_scalar (n : nat) (rows rest : list (string * report_entry))
  (key : string) (q : Q) : forall i,
  (i + length rows < n)%nat ->
  exists e, f1_results n i (rows ++ (key, Scalar q) :: rest) = ERaise e.
Proof.
  induction rows as [| [k r] rows IH]; intros i Hlt; cbn [app f1_results length] in *.
  - destruct (Nat.ltb_spec i n); [ | lia]. cbn. eauto.
  - destruct (Nat.ltb_spec i n); [ | lia].
    destruct (f1_of r); cbn [ebind]; [ | eauto].
    destruct (IH (S i) ltac:(lia)) as [e ->]. cbn. eauto.
Qed.

(** X22.  The accuracy is read by position.  When the report has
    exactly [len(label_list)] rows before its float entry, [evaluate]
    returns that float as the accuracy; when it has fewer rows before it
    (a class missing from the report), [evaluate] does not return: the
    per-class F1 comprehension of line 316 subscripts the float. *)
Theorem evaluate_accuracy_is_positional (batches : list DevBatch)
  (label_list : list string)
  (rows rest : list (string * report_entry)) (key : string) (acc : Q) :
  label_list_of num_label = Some label_list ->
  corpus_report classification_report batches label_list
  = rows ++ (key, Scalar acc) :: rest ->
  (length rows = length label_list ->
   forall l a f,
     evaluate_loader classification_report num_label batches = EOk (l, a, f) ->
     a = Scalar acc) /\
  ((length rows < length label_list)%nat ->
   forall out,
     evaluate_loader classification_report num_label batches <> EOk out).
Proof.
  intros Hlab Hcr. split.
  - intros Hlen l a f Hev.
    destruct (evaluate_loader_result batches l a f Hev)
      as (ll & k & Hll & _ & Hit & _).
    rewrite Hlab in Hll. inversion Hll; subst ll.
    rewrite Hcr in Hit. rewrite lookup_app_r in Hit by lia.
    rewrite Hlen, Nat.sub_diag in Hit. cbn in Hit. congruence.
  - intros Hlen out. rewrite (evaluate_loader_unfold batches label_list Hlab).
    cbn zeta. rewrite Hcr.
    destruct (item_at _ _); [ | discriminate]. cbn [ebind].
    destruct (item_of _ _); [ | discriminate]. cbn [ebind].
    destruct (f1_of _); [ | discriminate]. cbn [ebind].
    destruct (f1_results_stops_at_scalar (length label_list) rows rest key acc 0
                ltac:(lia)) as [e ->].
    discriminate.
Qed.

End EvaluateFacts.

Lemma rename_pretrained_skt_witness :
  let renamed := rename_pretrained "skt" skt_checkpoint in
  renamed = map (fun kv => (("bert." ++ fst kv)%string, snd kv)) skt_checkpoint /\
  (forall k, Dict.get renamed ("bert." ++ k)%string = Dict.get skt_checkpoint k) /\
  (forall k', (forall k, k' <> ("bert." ++ k)%string) ->
              Dict.get renamed k' = None).
Proof.
  apply (rename_pretrained_skt skt_checkpoint).
  unfold skt_checkpoint, Dict.keys. cbn [map fst].
  repeat constructor; cbn; intuition discriminate.
Defined.

Lemma evaluate_loader_result_witness :
  exists label_list k,
    label_list_of "binary" = Some label_list /\
    toy_batches <> [] /\
    corpus_report toy_report toy_batches label_list !! length label_list
    = Some (k, Scalar (1 # 2)) /\
    (exists p r s,
        Dict.get (corpus_report toy_report toy_batches label_list) "macro avg"
        = Some (Row p r (3 # 4) s)) /\
    ((3 # 2) == Qsum (map loss_item toy_batches)
                / inject_Z (Z.of_nat (length toy_batches)))%Q.
Proof.
  apply (evaluate_loader_result toy_report "binary" toy_batches
           (3 # 2)%Q (Scalar (1 # 2)) (3 # 4)%Q).
  vm_compute. reflexivity.
Defined.

Lemma evaluate_accuracy_is_positional_witness :
  (length (map (fun n => (n, Row 1 1 1 1)) ["긍정"; "부정"]%string)
   = length ["긍정"; "부정"]%string ->
   forall l a f,
     evaluate_loader toy_report "binary" toy_batches = EOk (l, a, f) ->
     a = Scalar (1 # 2)) /\
  ((length (map (fun n => (n, Row 1 1 1 1)) ["긍정"; "부정"]%string)
    < length ["긍정"; "부정"]%string)%nat ->
   forall out, evaluate_loader toy_report "binary" toy_batches <> EOk out).
Proof.
  apply (evaluate_accuracy_is_positional toy_report "binary" toy_batches
           ["긍정"; "부정"]%string
           (map (fun n => (n, Row 1 1 1 1)) ["긍정"; "부정"]%string)
           [("macro avg"%string, Row 1 1 (3 # 4) 2);
            ("weighted avg"%string, Row 1 1 1 2)]
           "accuracy" (1 # 2)).
  - reflexivity.
  - reflexivity.
Defined.
